(** * KUDO operator packages and plan-status selection

    A shallow embedding of [pkg/kudoctl/packages/package.go] (package
    parsing, task validation, compilation to the three CRDs, batch loading)
    and of the plan selector exercised by
    [TestGetLastExecutedPlanStatus] in package [v1alpha1].

    Go values are modelled as follows:
    - [string] and [[]byte] are byte strings, here [string];
    - a [map[string]T] is a [gmap string T]; a lookup that misses returns
      the zero value, written [default] at each use;
    - a pointer [*T] and a slice that the code compares with [nil] are
      [option]s ([None] is [nil]);
    - the pair [(result, error)] a function returns is a pair of options;
    - what a function prints ([fmt.Printf], [log.Printf]) is returned next
      to its result, as the list of the messages in emission order. *)

From Stdlib Require Import ZArith Ascii.
From stdpp Require Import gmap strings list fin_maps sorting.

Local Open Scope Z_scope.
Local Open Scope nat_scope.

(** ** Go library functions the package calls *)

(** [error] values built by [errors.New], [errors.Wrap]/[Wrapf],
    [fmt.Errorf], [strconv] ([*NumError] with [ErrSyntax]) and the YAML
    decoder. *)
Inductive error : Type :=
  | errors_New (message : string)
  | errors_Wrap (cause : error) (message : string)
  | fmt_Errorf (message : string)
  | strconv_NumError (Func Num : string)
  | yaml_Error (message : string).

Definition newline : ascii := "010"%char.

Fixpoint string_drop (n : nat) (s : string) : string :=
  match n, s with
  | 0, _ => s
  | S _, EmptyString => EmptyString
  | S n', String _ s' => string_drop n' s'
  end.

Fixpoint string_take (n : nat) (s : string) : string :=
  match n, s with
  | 0, _ => EmptyString
  | S _, EmptyString => EmptyString
  | S n', String c s' => String c (string_take n' s')
  end.

(** [strings.HasPrefix(s, prefix)]. *)
Fixpoint strings_HasPrefix (s prefix : string) : bool :=
  match prefix, s with
  | EmptyString, _ => true
  | String _ _, EmptyString => false
  | String p prefix', String c s' =>
      if decide (p = c) then strings_HasPrefix s' prefix' else false
  end.

(** [strings.HasSuffix(s, suffix)]:
    [len(s) >= len(suffix) && s[len(s)-len(suffix):] == suffix]. *)
Definition strings_HasSuffix (s suffix : string) : bool :=
  bool_decide (String.length suffix ≤ String.length s)
  && bool_decide (string_drop (String.length s - String.length suffix) s = suffix).

(** [strings.Index(s, substr)]: the index of the first occurrence of
    [substr] in [s]; Go's [-1] is [None]. *)
Fixpoint strings_Index (s substr : string) : option nat :=
  if strings_HasPrefix s substr then Some 0
  else match s with
       | EmptyString => None
       | String _ s' => S <$> strings_Index s' substr
       end.

(** The loop of [strings.Split] for a non-empty separator: cut at the
    first occurrence, continue after it.  Every round consumes at least
    [len(sep)] bytes, so [n = len(s)] rounds always suffice. *)
Fixpoint genSplit (n : nat) (s sep : string) : list string :=
  match n with
  | 0 => [s]
  | S n' =>
      match strings_Index s sep with
      | None => [s]
      | Some m =>
          string_take m s :: genSplit n' (string_drop (m + String.length sep) s) sep
      end
  end.

(** [substr] occurs in [s] at index [n]. *)
Definition occurs_at (substr s : string) (n : nat) : Prop :=
  ∃ a b, s = a +:+ substr +:+ b ∧ String.length a = n.

(** The last occurrence of [substr] in [s] is at index [n]. *)
Definition last_occurrence_at (substr s : string) (n : nat) : Prop :=
  occurs_at substr s n ∧ ∀ n', occurs_at substr s n' → n' ≤ n.

Definition strings_Split (s sep : string) : list string :=
  genSplit (String.length s) s sep.

(** [strings.Join(elems, sep)]. *)
Fixpoint strings_Join (elems : list string) (sep : string) : string :=
  match elems with
  | [] => ""
  | [e] => e
  | e :: rest => e +:+ sep +:+ strings_Join rest sep
  end.

(** [strconv.ParseBool]: accepts 1, t, T, TRUE, true, True, 0, f, F, FALSE,
    false, False; any other value returns a syntax error. *)
Definition strconv_ParseBool (str : string) : bool * option error :=
  if bool_decide (str ∈ ["1"; "t"; "T"; "TRUE"; "true"; "True"]) then (true, None)
  else if bool_decide (str ∈ ["0"; "f"; "F"; "FALSE"; "false"; "False"]) then (false, None)
  else (false, Some (strconv_NumError "ParseBool" str)).

(** The regular expressions the package needs: literals, [.] (any
    character but a newline), concatenation and [*]; [re_empty] and
    [re_alt] only arise as derivatives.  The matcher works on bytes where
    Go's works on runes.  For the one pattern of the package this makes no
    difference: its literals are ASCII, so they start and end on rune
    boundaries, and a run of bytes without a newline is a run of runes
    without a newline (Go reads each byte of an invalid encoding as the
    rune U+FFFD, which [.] matches). *)
Inductive regex : Type :=
  | re_empty
  | re_eps
  | re_lit (c : ascii)
  | re_dot
  | re_cat (r1 r2 : regex)
  | re_alt (r1 r2 : regex)
  | re_star (r : regex).

Fixpoint re_nullable (r : regex) : bool :=
  match r with
  | re_empty | re_lit _ | re_dot => false
  | re_eps | re_star _ => true
  | re_cat r1 r2 => re_nullable r1 && re_nullable r2
  | re_alt r1 r2 => re_nullable r1 || re_nullable r2
  end.

Fixpoint re_deriv (c : ascii) (r : regex) : regex :=
  match r with
  | re_empty | re_eps => re_empty
  | re_lit c' => if decide (c = c') then re_eps else re_empty
  | re_dot => if decide (c = newline) then re_empty else re_eps
  | re_cat r1 r2 =>
      if re_nullable r1
      then re_alt (re_cat (re_deriv c r1) r2) (re_deriv c r2)
      else re_cat (re_deriv c r1) r2
  | re_alt r1 r2 => re_alt (re_deriv c r1) (re_deriv c r2)
  | re_star r' => re_cat (re_deriv c r') (re_star r')
  end.

(** Does some prefix of [s] match [r]? *)
Fixpoint re_match_prefix (r : regex) (s : string) : bool :=
  re_nullable r
  || match s with
     | EmptyString => false
     | String c s' => re_match_prefix (re_deriv c r) s'
     end.

(** [regexp.Match(pattern, b)]: does [b] contain any match of the
    (unanchored) pattern? *)
Fixpoint regexp_Match (r : regex) (b : string) : bool :=
  re_match_prefix r b
  || match b with
     | EmptyString => false
     | String _ b' => regexp_Match r b'
     end.

(** The strings a regular expression denotes. *)
Inductive re_lang : regex → string → Prop :=
  | re_lang_eps : re_lang re_eps ""
  | re_lang_lit c : re_lang (re_lit c) (String c "")
  | re_lang_dot c : c ≠ newline → re_lang re_dot (String c "")
  | re_lang_cat r1 r2 u v :
      re_lang r1 u → re_lang r2 v → re_lang (re_cat r1 r2) (u +:+ v)
  | re_lang_alt_l r1 r2 u : re_lang r1 u → re_lang (re_alt r1 r2) u
  | re_lang_alt_r r1 r2 u : re_lang r2 u → re_lang (re_alt r1 r2) u
  | re_lang_star_nil r : re_lang (re_star r) ""
  | re_lang_star_cons r u v :
      re_lang r u → re_lang (re_star r) v → re_lang (re_star r) (u +:+ v).

(** The pattern syntax [regexp.Match] is called with: a sequence of
    literal characters and [.], each optionally followed by [*]. *)
Fixpoint regexp_parse (pattern : string) : regex :=
  match pattern with
  | EmptyString => re_eps
  | String c rest =>
      let atom := if decide (c = "."%char) then re_dot else re_lit c in
      match rest with
      | String "*"%char rest' => re_cat (re_star atom) (regexp_parse rest')
      | _ => re_cat atom (regexp_parse rest)
      end
  end.

(** ** Package [v1alpha1]: the API types the two packages use *)

(** [metav1.Time]: an instant, in nanoseconds after the zero time. *)
Definition Time : Type := Z.
Definition time_Hour : Z := 3600000000000%Z.

Inductive ExecutionStatus : Type :=
  | ExecutionNeverRun
  | ExecutionInProgress
  | ExecutionComplete.

Global Instance ExecutionStatus_eq_dec : EqDecision ExecutionStatus.
Proof. solve_decision. Defined.

Record StepStatus : Type := {
  StepStatus_Name : string;
  StepStatus_Status : ExecutionStatus;
}.

Record PhaseStatus : Type := {
  PhaseStatus_Name : string;
  PhaseStatus_Status : ExecutionStatus;
  PhaseStatus_Steps : list StepStatus;
}.

Record PlanStatus : Type := {
  PlanStatus_Name : string;
  PlanStatus_Status : ExecutionStatus;
  PlanStatus_LastFinishedRun : Time;
  PlanStatus_Phases : list PhaseStatus;
}.

Record InstanceStatus : Type := {
  InstanceStatus_PlanStatus : gmap string PlanStatus;
}.

Record TypeMeta : Type := {
  TypeMeta_Kind : string;
  TypeMeta_APIVersion : string;
}.

Record ObjectMeta : Type := {
  ObjectMeta_Name : string;
  ObjectMeta_Labels : gmap string string;
}.

Record ObjectReference : Type := {
  ObjectReference_Kind : string;
  ObjectReference_Name : string;
}.

Record InstanceSpec : Type := {
  InstanceSpec_OperatorVersion : ObjectReference;
  InstanceSpec_Parameters : gmap string string;
}.

Record Instance : Type := {
  Instance_TypeMeta : TypeMeta;
  Instance_ObjectMeta : ObjectMeta;
  Instance_Spec : InstanceSpec;
  Instance_Status : InstanceStatus;
}.

Record ResourceTaskSpec : Type := {
  ResourceTaskSpec_Resources : list string;
}.

Record TaskSpec : Type := {
  TaskSpec_ResourceTaskSpec : ResourceTaskSpec;
}.

Record Task : Type := {
  Task_Name : string;
  Task_Kind : string;
  Task_Spec : TaskSpec;
}.

Record v1alpha1_Parameter : Type := {
  Parameter_DisplayName : string;
  Parameter_Name : string;
  Parameter_Description : string;
  Parameter_Required : bool;
  Parameter_Default : option string;
  Parameter_Trigger : string;
}.

(** *** The plan selector *)

(** Modelled from the spec: the selector [GetLastExecutedPlanStatus] is
    called by [TestGetLastExecutedPlanStatus] and defined outside the test
    file; it is written here after section 4.6, from the definitions below
    up to [GetLastExecutedPlanStatus] itself.  First the lexical order of
    the plan names, and the plans of a status map in that order. *)
Definition name_le (a b : string * PlanStatus) : Prop := String.le a.1 b.1.

Global Instance name_le_dec : RelDecision name_le.
Proof. intros a b. unfold name_le. apply _. Defined.

Definition plansByName (planStatus : gmap string PlanStatus)
    : list (string * PlanStatus) :=
  merge_sort name_le (map_to_list planStatus).

(** Modelled from the spec: one round of the search for the plan with
    "the latest last-finished timestamp (strict greater-than comparison ...)":
    a complete plan replaces the candidate only when it finished strictly
    later. *)
Definition laterFinished (last : option (string * PlanStatus))
    (named : string * PlanStatus) : option (string * PlanStatus) :=
  if decide (PlanStatus_Status named.2 = ExecutionComplete) then
    match last with
    | None => Some named
    | Some l =>
        if (PlanStatus_LastFinishedRun l.2 <? PlanStatus_LastFinishedRun named.2)%Z
        then Some named
        else last
    end
  else last.

(** Modelled from the spec: the first step of the selector.  "If any
    plan's state is in-progress, return that plan"; among several the spec
    leaves the choice to the implementation, and this model takes the
    first in the lexical order of the plan names. *)
Definition planInProgress (i : Instance) : option PlanStatus :=
  snd <$> head (filter (λ named, PlanStatus_Status named.2 = ExecutionInProgress)
                       (plansByName (InstanceStatus_PlanStatus (Instance_Status i)))).

(** Modelled from the spec: [GetLastExecutedPlanStatus], the method the
    test calls.  Section 4.6: (1) an in-progress plan is returned if there
    is one;
    (2) otherwise, among the complete plans, the one with the latest
    last-finished timestamp, compared with a strict greater-than, ties
    broken by the lexical order of the plan names (the plans are visited in
    that order, so of two plans that finished together the one whose name
    comes first is kept); (3) otherwise none ([nil]). *)
Definition GetLastExecutedPlanStatus (i : Instance) : option PlanStatus :=
  match planInProgress i with
  | Some activePlan => Some activePlan
  | None =>
      snd <$> foldl laterFinished None
                    (plansByName (InstanceStatus_PlanStatus (Instance_Status i)))
  end.

(** What the search returns on plans sorted by name: a complete plan that
    no complete plan finished after, and the first by name of those that
    finished with it. *)
Definition is_last_finished (plans : list (string * PlanStatus))
    (found : string * PlanStatus) : Prop :=
  found ∈ plans
  ∧ PlanStatus_Status found.2 = ExecutionComplete
  ∧ ∀ named, named ∈ plans →
      PlanStatus_Status named.2 = ExecutionComplete →
      (PlanStatus_LastFinishedRun named.2 ≤ PlanStatus_LastFinishedRun found.2)%Z
      ∧ (PlanStatus_LastFinishedRun named.2 = PlanStatus_LastFinishedRun found.2 →
         name_le found named).

(** *** [TestGetLastExecutedPlanStatus] *)

(** [time.Date(2019, 10, 17, 1, 1, 1, 1, time.UTC)]. *)
Definition testTime : Time := 63706870861000000001%Z.

Definition testPhases (status : ExecutionStatus) : list PhaseStatus :=
  [ {| PhaseStatus_Name := "phase"; PhaseStatus_Status := status;
       PhaseStatus_Steps :=
         [ {| StepStatus_Status := status; StepStatus_Name := "step" |} ] |} ].

Definition test_noPlanEverRun : gmap string PlanStatus :=
  {[ "test" := {| PlanStatus_Status := ExecutionNeverRun;
                  PlanStatus_Name := "test";
                  PlanStatus_LastFinishedRun := 0%Z;
                  PlanStatus_Phases := testPhases ExecutionNeverRun |} ]}.

Definition test_planInProgress : gmap string PlanStatus :=
  <[ "test" := {| PlanStatus_Status := ExecutionInProgress;
                  PlanStatus_Name := "test";
                  PlanStatus_LastFinishedRun := 0%Z;
                  PlanStatus_Phases := testPhases ExecutionInProgress |} ]>
  {[ "test2" := {| PlanStatus_Status := ExecutionComplete;
                   PlanStatus_Name := "test2";
                   PlanStatus_LastFinishedRun := 0%Z;
                   PlanStatus_Phases := testPhases ExecutionComplete |} ]}.

Definition test_lastExecutedPlan : gmap string PlanStatus :=
  <[ "test" := {| PlanStatus_Status := ExecutionComplete;
                  PlanStatus_Name := "test";
                  PlanStatus_LastFinishedRun := testTime;
                  PlanStatus_Phases := testPhases ExecutionComplete |} ]>
  {[ "test2" := {| PlanStatus_Status := ExecutionComplete;
                   PlanStatus_Name := "test2";
                   PlanStatus_LastFinishedRun := (testTime + time_Hour)%Z;
                   PlanStatus_Phases := testPhases ExecutionComplete |} ]}.

Definition tests : list (string * gmap string PlanStatus * string) :=
  [ ("no plan ever run", test_noPlanEverRun, "");
    ("plan in progress", test_planInProgress, "test");
    ("last executed plan", test_lastExecutedPlan, "test2") ].

(** [Instance{}] with [Status.PlanStatus] set. *)
Definition instanceWithPlanStatus (planStatus : gmap string PlanStatus) : Instance :=
  {| Instance_TypeMeta := {| TypeMeta_Kind := ""; TypeMeta_APIVersion := "" |};
     Instance_ObjectMeta := {| ObjectMeta_Name := ""; ObjectMeta_Labels := ∅ |};
     Instance_Spec :=
       {| InstanceSpec_OperatorVersion :=
            {| ObjectReference_Kind := ""; ObjectReference_Name := "" |};
          InstanceSpec_Parameters := ∅ |};
     Instance_Status := {| InstanceStatus_PlanStatus := planStatus |} |}.

(** The body of the test loop: does the selector return the expected
    plan? *)
Definition testPasses (tt : string * gmap string PlanStatus * string) : bool :=
  let '(_, planStatus, expectedPlanName) := tt in
  let actual := GetLastExecutedPlanStatus (instanceWithPlanStatus planStatus) in
  let actualName :=
    match actual with
    | Some actual => PlanStatus_Name actual
    | None => ""
    end in
  bool_decide (actualName = expectedPlanName).

(** ** Package [packages] *)

Definition operatorFileName : string := "operator.yaml".
Definition templateFileNameRegex : string := "templates/.*.yaml".
Definition paramsFileName : string := "params.yaml".

Definition apiVersion : string := "kudo.dev/v1alpha1".

(** Modelled from the spec: [kudo.String] of package [pkg/util/kudo],
    which [package.go] imports.  A parameter has an "optional default";
    the helper turns a value into the pointer that stands for a default
    that is present, that is, it returns a pointer to its argument. *)
Definition kudo_String (v : string) : option string := Some v.

Section packages.

(** Types and constants of the packages [package.go] imports:
    [v1alpha1.Maintainer], [v1alpha1.Plan], the task kinds of package
    [task] and [kudo.OperatorLabel]. *)
Context {Maintainer Plan : Type}.
Variables ApplyTaskKind DeleteTaskKind DummyTaskKind : string.
Variable OperatorLabel : string.

(** The KEP-9 operator YAML. *)
Record Operator : Type := {
  Operator_Name : string;
  Operator_Description : string;
  Operator_Version : string;
  Operator_AppVersion : string;
  Operator_KUDOVersion : string;
  Operator_KubernetesVersion : string;
  Operator_Maintainers : list (option Maintainer);
  Operator_URL : string;
  Operator_Tasks : list Task;
  Operator_Plans : gmap string Plan;
}.

(** The raw package.  [Templates] is the map [newPackageFiles]
    allocates; [Operator] is a pointer and [Params] a slice that
    [getCRDs] compares with [nil]. *)
Record PackageFiles : Type := {
  PackageFiles_Templates : gmap string string;
  PackageFiles_Operator : option Operator;
  PackageFiles_Params : option (list v1alpha1_Parameter);
}.

Record PackageFilesDigest : Type := {
  PackageFilesDigest_PkgFiles : option PackageFiles;
  PackageFilesDigest_Digest : string;
}.

(** The CRDs of package [v1alpha1] that [getCRDs] fills in. *)
Record OperatorSpec : Type := {
  OperatorSpec_Description : string;
  OperatorSpec_KudoVersion : string;
  OperatorSpec_KubernetesVersion : string;
  OperatorSpec_Maintainers : list (option Maintainer);
  OperatorSpec_URL : string;
}.

Record OperatorStatus : Type := {}.

Record v1alpha1_Operator : Type := {
  v1alpha1_Operator_TypeMeta : TypeMeta;
  v1alpha1_Operator_ObjectMeta : ObjectMeta;
  v1alpha1_Operator_Spec : OperatorSpec;
  v1alpha1_Operator_Status : OperatorStatus;
}.

Record OperatorVersionSpec : Type := {
  OperatorVersionSpec_Operator : ObjectReference;
  OperatorVersionSpec_Version : string;
  OperatorVersionSpec_Templates : gmap string string;
  OperatorVersionSpec_Tasks : list Task;
  OperatorVersionSpec_Parameters : option (list v1alpha1_Parameter);
  OperatorVersionSpec_Plans : gmap string Plan;
  OperatorVersionSpec_UpgradableFrom : option (list ObjectReference);
}.

Record OperatorVersionStatus : Type := {}.

Record OperatorVersion : Type := {
  OperatorVersion_TypeMeta : TypeMeta;
  OperatorVersion_ObjectMeta : ObjectMeta;
  OperatorVersion_Spec : OperatorVersionSpec;
  OperatorVersion_Status : OperatorVersionStatus;
}.

Record PackageCRDs : Type := {
  PackageCRDs_Operator : option v1alpha1_Operator;
  PackageCRDs_OperatorVersion : option OperatorVersion;
  PackageCRDs_Instance : option Instance;
}.

(** The YAML decoder and the order in which [range] visits a map are
    outside the package.  [yaml.Unmarshal] into [&currentPackage.Operator]
    returns the new pointer and the error, [yaml.Unmarshal] into
    [&params] the decoded map and the error; [range] may visit the
    entries of a map in any order. *)
Variable yaml_Unmarshal_Operator :
  string → option Operator → option Operator * option error.
Variable yaml_Unmarshal_params :
  string → gmap string (gmap string string) * option error.
Variable range_params :
  gmap string (gmap string string) → list (string * gmap string string).
Hypothesis range_params_Permutation :
  ∀ params, range_params params ≡ₚ map_to_list params.

Definition isOperatorFile (name : string) : bool :=
  strings_HasSuffix name operatorFileName.

Definition isTemplateFile (name : string) : bool :=
  regexp_Match (regexp_parse templateFileNameRegex) name.

Definition isParametersFile (name : string) : bool :=
  strings_HasSuffix name paramsFileName.

(** The body of the loop over the parameters file: the parameter of one
    entry, or the error that makes [parsePackageFile] return. *)
Definition parseParameter (paramName : string) (param : gmap string string)
    : v1alpha1_Parameter + error :=
  let required := true in
  let required_err :=
    match param !! "required" with
    | Some _ =>
        let '(parsed, err) := strconv_ParseBool (default "" (param !! "required")) in
        match err with
        | Some err =>
            inr (errors_Wrap err
                   ("failed parsing required field from parameter " +:+ paramName
                    +:+ ". cannot convert " +:+ default "" (param !! "required")
                    +:+ " to bool"))
        | None => inl parsed
        end
    | None => inl required
    end in
  match required_err with
  | inr err => inr err
  | inl required =>
      let defaultValue :=
        match param !! "default" with
        | Some val => kudo_String val
        | None => None
        end in
      inl {| Parameter_Name := paramName;
             Parameter_Description := default "" (param !! "description");
             Parameter_Default := defaultValue;
             Parameter_Trigger := default "" (param !! "trigger");
             Parameter_Required := required;
             Parameter_DisplayName := default "" (param !! "displayName") |}
  end.

(** The loop itself: parameters are appended in the order the entries
    are visited; the first error ends it. *)
Fixpoint parseParameters (entries : list (string * gmap string string))
    (paramsStruct : list v1alpha1_Parameter)
    : list v1alpha1_Parameter + error :=
  match entries with
  | [] => inl paramsStruct
  | (paramName, param) :: entries' =>
      match parseParameter paramName param with
      | inr err => inr err
      | inl r => parseParameters entries' (paramsStruct ++ [r])
      end
  end.

Definition set_Templates (p : PackageFiles) (templates : gmap string string) :=
  {| PackageFiles_Templates := templates;
     PackageFiles_Operator := PackageFiles_Operator p;
     PackageFiles_Params := PackageFiles_Params p |}.

Definition set_Operator (p : PackageFiles) (operator : option Operator) :=
  {| PackageFiles_Templates := PackageFiles_Templates p;
     PackageFiles_Operator := operator;
     PackageFiles_Params := PackageFiles_Params p |}.

Definition set_Params (p : PackageFiles) (params : option (list v1alpha1_Parameter)) :=
  {| PackageFiles_Templates := PackageFiles_Templates p;
     PackageFiles_Operator := PackageFiles_Operator p;
     PackageFiles_Params := params |}.

(** [parsePackageFile] updates [*currentPackage] and returns an error:
    the result is the package after the call and the error.
    [strings.Split] never returns an empty slice, so the index
    [len(pathParts)-1] is always in range. *)
Definition parsePackageFile (filePath : string) (fileBytes : string)
    (currentPackage : PackageFiles) : PackageFiles * option error :=
  if isOperatorFile filePath then
    let '(operator, err) :=
      yaml_Unmarshal_Operator fileBytes (PackageFiles_Operator currentPackage) in
    match err with
    | Some err =>
        (set_Operator currentPackage operator,
         Some (errors_Wrap err "failed to unmarshal operator file"))
    | None => (set_Operator currentPackage operator, None)
    end
  else if isTemplateFile filePath then
    let pathParts := strings_Split filePath "templates/" in
    let name := default "" (last pathParts) in
    (set_Templates currentPackage
       (<[name := fileBytes]> (PackageFiles_Templates currentPackage)), None)
  else if isParametersFile filePath then
    let '(params, err) := yaml_Unmarshal_params fileBytes in
    match err with
    | Some err =>
        (currentPackage,
         Some (errors_Wrap err ("failed to unmarshal parameters file: " +:+ filePath)))
    | None =>
        match parseParameters (range_params params) [] with
        | inr err => (currentPackage, Some err)
        | inl paramsStruct => (set_Params currentPackage (Some paramsStruct), None)
        end
    end
  else
    (currentPackage,
     Some (fmt_Errorf ("unexpected file when reading package from filesystem: "
                       +:+ filePath))).

Definition newPackageFiles : PackageFiles :=
  {| PackageFiles_Templates := ∅;
     PackageFiles_Operator := None;
     PackageFiles_Params := None |}.

(** [validateTask]: the violations of one task and, next to them, what
    it writes to the log. *)
Definition validateTask (t : Task) (templates : gmap string string)
    : list string * list string :=
  let '(resources, logged) :=
    if decide (Task_Kind t = ApplyTaskKind) then
      (ResourceTaskSpec_Resources (TaskSpec_ResourceTaskSpec (Task_Spec t)), [])
    else if decide (Task_Kind t = DeleteTaskKind) then
      (ResourceTaskSpec_Resources (TaskSpec_ResourceTaskSpec (Task_Spec t)), [])
    else if decide (Task_Kind t = DummyTaskKind) then
      ([], [])
    else
      ([], ["no validation for task kind " +:+ Task_Kind t +:+ " implemented"]) in
  let errs :=
    foldl (λ errs res,
             match templates !! res with
             | Some _ => errs
             | None =>
                 errs ++ ["task " +:+ Task_Name t +:+ " missing template: " +:+ res]
             end)
          [] resources in
  (errs, logged).

(** The loop of [getCRDs] over the tasks of the operator. *)
Definition validateTasks (tasks : list Task) (templates : gmap string string)
    : list string * list string :=
  foldl (λ '(errs, logged) tt,
           let '(errs', logged') := validateTask tt templates in
           (errs ++ errs', logged ++ logged'))
        ([], []) tasks.

Definition controllerToolsLabel : gmap string string :=
  {[ "controller-tools.k8s.io" := "1.0" ]}.

(** [getCRDs]; [suffix] is the value of [rand.String(6)].  The result
    is the pair the method returns and what the task validation
    logged. *)
Definition getCRDs (p : PackageFiles) (suffix : string)
    : (option PackageCRDs * option error) * list string :=
  match PackageFiles_Operator p with
  | None => ((None, Some (errors_New "operator.yaml file is missing")), [])
  | Some p_Operator =>
  match PackageFiles_Params p with
  | None => ((None, Some (errors_New "params.yaml file is missing")), [])
  | Some _ =>
  let '(errs, logged) :=
    validateTasks (Operator_Tasks p_Operator) (PackageFiles_Templates p) in
  if decide (length errs ≠ 0) then
    ((None, Some (errors_New (strings_Join errs (String newline "")))), logged)
  else
    let operator :=
      {| v1alpha1_Operator_TypeMeta :=
           {| TypeMeta_Kind := "Operator"; TypeMeta_APIVersion := apiVersion |};
         v1alpha1_Operator_ObjectMeta :=
           {| ObjectMeta_Name := Operator_Name p_Operator;
              ObjectMeta_Labels := controllerToolsLabel |};
         v1alpha1_Operator_Spec :=
           {| OperatorSpec_Description := Operator_Description p_Operator;
              OperatorSpec_KudoVersion := Operator_KUDOVersion p_Operator;
              OperatorSpec_KubernetesVersion := Operator_KubernetesVersion p_Operator;
              OperatorSpec_Maintainers := Operator_Maintainers p_Operator;
              OperatorSpec_URL := Operator_URL p_Operator |};
         v1alpha1_Operator_Status := Build_OperatorStatus |} in
    let fv :=
      {| OperatorVersion_TypeMeta :=
           {| TypeMeta_Kind := "OperatorVersion"; TypeMeta_APIVersion := apiVersion |};
         OperatorVersion_ObjectMeta :=
           {| ObjectMeta_Name :=
                Operator_Name p_Operator +:+ "-" +:+ Operator_Version p_Operator;
              ObjectMeta_Labels := controllerToolsLabel |};
         OperatorVersion_Spec :=
           {| OperatorVersionSpec_Operator :=
                {| ObjectReference_Name := Operator_Name p_Operator;
                   ObjectReference_Kind := "Operator" |};
              OperatorVersionSpec_Version := Operator_Version p_Operator;
              OperatorVersionSpec_Templates := PackageFiles_Templates p;
              OperatorVersionSpec_Tasks := Operator_Tasks p_Operator;
              OperatorVersionSpec_Parameters := PackageFiles_Params p;
              OperatorVersionSpec_Plans := Operator_Plans p_Operator;
              OperatorVersionSpec_UpgradableFrom := None |};
         OperatorVersion_Status := Build_OperatorVersionStatus |} in
    let instance :=
      {| Instance_TypeMeta :=
           {| TypeMeta_Kind := "Instance"; TypeMeta_APIVersion := apiVersion |};
         Instance_ObjectMeta :=
           {| ObjectMeta_Name := Operator_Name p_Operator +:+ "-" +:+ suffix;
              ObjectMeta_Labels :=
                <[OperatorLabel := Operator_Name p_Operator]> controllerToolsLabel |};
         Instance_Spec :=
           {| InstanceSpec_OperatorVersion :=
                {| ObjectReference_Name :=
                     Operator_Name p_Operator +:+ "-" +:+ Operator_Version p_Operator;
                   ObjectReference_Kind := "" |};
              InstanceSpec_Parameters := ∅ |};
         Instance_Status := {| InstanceStatus_PlanStatus := ∅ |} |} in
    ((Some {| PackageCRDs_Operator := Some operator;
              PackageCRDs_OperatorVersion := Some fv;
              PackageCRDs_Instance := Some instance |}, None), logged)
  end
  end.

(** [mapPaths]: the operators of the paths that [f] accepts and, next to
    them, the warnings printed for the others. *)
Definition mapPaths {Fs : Type} (fs : Fs) (paths : list string)
    (f : Fs → string → option PackageFilesDigest * option error)
    : list (option PackageFilesDigest) * list string :=
  foldl (λ '(ops, printed) path,
           let '(op, err) := f fs path in
           match err with
           | Some _ =>
               (ops, printed ++ ["WARNING: operator: " +:+ path +:+ " is invalid"])
           | None => (ops ++ [op], printed)
           end)
        ([], []) paths.

(** *** Loading packages from a file system *)

(** The file system ([afero.Fs], [afero.File]), the digest, and the reader
    of the package archive are outside [package.go]: [fs.Open],
    [files.Sha256Sum], [reader.Seek], [ioutil.ReadAll] and [reader.Close]
    act on the state of the open file, which is passed along;
    [NewFromBytes(buf).GetPkgFiles()] turns the bytes into a package. *)
Context {afero_Fs afero_File : Type}.
Variable Fs_Open : afero_Fs → string → afero_File * option error.
Variable files_Sha256Sum : afero_File → (string * option error) * afero_File.
Variable File_Seek : afero_File → Z → Z → (Z * option error) * afero_File.
Variable ioutil_ReadAll : afero_File → (string * option error) * afero_File.
Variable File_Close : afero_File → option error.
Variable NewFromBytes_GetPkgFiles : string → option PackageFiles * option error.

Definition io_SeekStart : Z := 0.

Definition bufferToPackageFiles (buf : string) : option PackageFiles * option error :=
  let '(pkg, err) := NewFromBytes_GetPkgFiles buf in
  match err with
  | Some err => (None, Some err)
  | None => (pkg, None)
  end.

(** The deferred function of [pathToOperator]: it runs on every return
    after the file was opened and, when [Close] fails, replaces the named
    result [err]. *)
Definition deferredClose (reader : afero_File)
    (results : option PackageFilesDigest * option error)
    : option PackageFilesDigest * option error :=
  match File_Close reader with
  | Some ferr => (results.1, Some ferr)
  | None => results
  end.

Definition pathToOperator (fs : afero_Fs) (path : string)
    : option PackageFilesDigest * option error :=
  let '(reader, err) := Fs_Open fs path in
  match err with
  | Some err => (None, Some err)
  | None =>
  let '((digest, err), reader) := files_Sha256Sum reader in
  match err with
  | Some err => deferredClose reader (None, Some err)
  | None =>
  let '((_, err), reader) := File_Seek reader 0 io_SeekStart in
  match err with
  | Some err => deferredClose reader (None, Some err)
  | None =>
  let '((b, err), reader) := ioutil_ReadAll reader in
  match err with
  | Some err => deferredClose reader (None, Some err)
  | None =>
  let '(pkg, err) := bufferToPackageFiles b in
  let pfd := Some {| PackageFilesDigest_PkgFiles := pkg;
                     PackageFilesDigest_Digest := digest |} in
  deferredClose reader (pfd, err)
  end
  end
  end
  end.

Definition GetFilesDigest (fs : afero_Fs) (paths : list string)
    : list (option PackageFilesDigest) * list string :=
  mapPaths fs paths pathToOperator.

(** ** Package [kudo]: the client *)

(** The clientset is outside the package: [Instances(namespace).List] and
    [OperatorVersions(namespace).List] take the namespace and the label
    selector of the [ListOptions] and return the items and an error. *)
Variable Instances_List : string → string → list Instance * option error.
Variable OperatorVersions_List : string → string → list OperatorVersion * option error.

(** [InstanceExistsInCluster]; the counter [i] never exceeds the number of
    items. *)
Definition InstanceExistsInCluster (operatorName namespace version instanceName : string)
    : bool * option error :=
  let '(instances_Items, err) :=
    Instances_List namespace (OperatorLabel +:+ "=" +:+ operatorName) in
  match err with
  | Some err => (false, Some err)
  | None =>
      if decide (length instances_Items < 1) then (false, None)
      else
        let i :=
          foldl (λ (i : nat) v,
                   if decide (ObjectReference_Name
                                (InstanceSpec_OperatorVersion (Instance_Spec v))
                              = operatorName +:+ "-" +:+ version
                              ∧ ObjectMeta_Name (Instance_ObjectMeta v) = instanceName)
                   then i + 1 else i)
                0 instances_Items in
        if decide (i = 0) then (false, None) else (true, None)
  end.

(** [OperatorVersionsInstalled]: the versions of the operator versions
    whose name starts with the name of the operator. *)
Definition OperatorVersionsInstalled (operatorName namespace : string)
    : option (list string) * option error :=
  let '(ov_Items, err) := OperatorVersions_List namespace "" in
  match err with
  | Some err => (None, Some err)
  | None =>
      (Some (foldl (λ existingVersions v,
                      if strings_HasPrefix
                           (ObjectMeta_Name (OperatorVersion_ObjectMeta v)) operatorName
                      then existingVersions
                           ++ [OperatorVersionSpec_Version (OperatorVersion_Spec v)]
                      else existingVersions)
                   [] ov_Items), None)
  end.

(** ** The library functions on small inputs *)

Example strings_Split_templates :
  strings_Split "zookeeper/templates/old/templates/pdb.yaml" "templates/"
  = ["zookeeper/"; "old/"; "pdb.yaml"].
Proof. reflexivity. Qed.

Example strings_Split_no_separator :
  strings_Split "operator.yaml" "templates/" = ["operator.yaml"].
Proof. reflexivity. Qed.

Example strings_Join_lines :
  strings_Join ["a"; "b"; "c"] (String newline "")
  = "a" +:+ String newline ("b" +:+ String newline "c").
Proof. reflexivity. Qed.

Example strconv_ParseBool_values :
  strconv_ParseBool "TRUE" = (true, None)
  ∧ strconv_ParseBool "0" = (false, None)
  ∧ strconv_ParseBool "yes" = (false, Some (strconv_NumError "ParseBool" "yes"))
  ∧ strconv_ParseBool "" = (false, Some (strconv_NumError "ParseBool" "")).
Proof. by vm_compute. Qed.

(** The classification is by priority: an [operator.yaml] below
    [templates/] is an operator file, a [params.yaml] below [templates/] a
    template; the pattern needs a character between the marker and
    [yaml]. *)
Example classification :
  isOperatorFile "zookeeper/templates/operator.yaml" = true
  ∧ isTemplateFile "zookeeper/templates/operator.yaml" = true
  ∧ isOperatorFile "zookeeper/templates/params.yaml" = false
  ∧ isTemplateFile "zookeeper/templates/params.yaml" = true
  ∧ isTemplateFile "zookeeper/templates/yaml" = false
  ∧ isTemplateFile "zookeeper/params.yaml" = false
  ∧ isParametersFile "zookeeper/params.yaml" = true.
Proof. by vm_compute. Qed.

(** ** Strings *)

Lemma string_app_cons c s t : String c s +:+ t = String c (s +:+ t).
Proof. reflexivity. Qed.

Lemma string_app_assoc a b c : (a +:+ b) +:+ c = a +:+ b +:+ c.
Proof. induction a as [|x a IH]; [done|]. rewrite !string_app_cons. by f_equal. Qed.

Lemma string_length_app a b :
  String.length (a +:+ b) = String.length a + String.length b.
Proof. induction a as [|x a IH]; [done|]. rewrite string_app_cons. simpl. by f_equal. Qed.

Lemma string_drop_app a b : string_drop (String.length a) (a +:+ b) = b.
Proof. induction a as [|x a IH]; [by destruct b|]. by rewrite string_app_cons. Qed.

(** Two ways to cut the same string: the shorter prefix is a prefix of
    the longer one. *)
Lemma string_app_split a x a' y :
  a +:+ x = a' +:+ y → String.length a ≤ String.length a' →
  ∃ u, a' = a +:+ u ∧ x = u +:+ y.
Proof.
  revert a'. induction a as [|c a IH]; intros a' Heq Hlen.
  { by exists a'. }
  destruct a' as [|c' a']; simpl in Hlen; [lia|].
  rewrite !string_app_cons in Heq. injection Heq as -> Heq.
  destruct (IH a' Heq) as (u & -> & ->); [lia|]. by exists u.
Qed.

Lemma strings_HasPrefix_true s prefix :
  strings_HasPrefix s prefix = true ↔ ∃ t, s = prefix +:+ t.
Proof.
  revert s. induction prefix as [|p prefix IH]; intros [|c s]; simpl.
  { split; [by exists ""|done]. }
  { split; [by exists (String c s)|done]. }
  { split; [done|]. by intros [t Ht]. }
  case_decide as Hpc.
  - subst c. rewrite IH. split.
    + intros [t ->]. by exists t.
    + intros [t Ht]. rewrite string_app_cons in Ht. injection Ht as ->. by exists t.
  - split; [done|]. intros [t Ht]. rewrite string_app_cons in Ht. congruence.
Qed.

Lemma strings_Index_unfold s substr :
  strings_Index s substr =
    if strings_HasPrefix s substr then Some 0
    else match s with
         | EmptyString => None
         | String _ s' => S <$> strings_Index s' substr
         end.
Proof. by destruct s. Qed.

Lemma strings_Index_Some s substr m :
  strings_Index s substr = Some m →
  occurs_at substr s m ∧ ∀ n, occurs_at substr s n → m ≤ n.
Proof.
  revert m. induction s as [|c s IH]; intros m; rewrite strings_Index_unfold.
  - destruct (strings_HasPrefix "" substr) eqn:Hp; [|done].
    intros [= <-]. apply strings_HasPrefix_true in Hp as [t Ht].
    split; [by exists "", t|]. intros n _. lia.
  - destruct (strings_HasPrefix (String c s) substr) eqn:Hp.
    + intros [= <-]. apply strings_HasPrefix_true in Hp as [t Ht].
      split; [by exists "", t|]. intros n _. lia.
    + destruct (strings_Index s substr) as [m'|]; [|done].
      intros [= <-]. destruct (IH m' eq_refl) as [(a & b & -> & Hlen) Hmin].
      split.
      * exists (String c a), b. split; [done|]. simpl. by f_equal.
      * intros n (a' & b' & Heq & Hlen'). destruct a' as [|c' a'].
        -- assert (strings_HasPrefix (String c (a +:+ substr +:+ b)) substr = true)
             as Hp'; [|congruence].
           apply strings_HasPrefix_true. by exists b'.
        -- rewrite string_app_cons in Heq. injection Heq as -> Heq.
           subst n. simpl. apply le_n_S, Hmin. by exists a', b'.
Qed.

Lemma strings_Index_None s substr n :
  strings_Index s substr = None → ¬ occurs_at substr s n.
Proof.
  revert n. induction s as [|c s IH]; intros n; rewrite strings_Index_unfold.
  - destruct (strings_HasPrefix "" substr) eqn:Hp; [done|].
    intros _ (a & b & Heq & _). destruct a; [|done].
    assert (strings_HasPrefix "" substr = true) as Hp'; [|congruence].
    apply strings_HasPrefix_true. by exists b.
  - destruct (strings_HasPrefix (String c s) substr) eqn:Hp; [done|].
    destruct (strings_Index s substr) eqn:Hi; [done|].
    intros _ (a & b & Heq & Hlen). destruct a as [|c' a].
    + assert (strings_HasPrefix (String c s) substr = true) as Hp'; [|congruence].
      apply strings_HasPrefix_true. by exists b.
    + rewrite string_app_cons in Heq. injection Heq as -> Heq.
      apply (IH (String.length a) eq_refl). by exists a, b.
Qed.

(** Two occurrences of ["templates/"] never overlap. *)
Lemma templates_no_overlap u b b' :
  "templates/" +:+ b = u +:+ "templates/" +:+ b' →
  u = "" ∨ 10 ≤ String.length u.
Proof.
  intros Heq.
  do 10 (destruct u as [|? u];
         [try (by left); exfalso; cbv in Heq; simplify_eq|]).
  right. simpl. lia.
Qed.

(** An occurrence of ["templates/"] in [a ++ "templates/" ++ b] starts
    in [a] or at its end, or lies in [b]. *)
Lemma templates_occurs_after a b n :
  occurs_at "templates/" (a +:+ "templates/" +:+ b) n →
  n ≤ String.length a
  ∨ ∃ j, n = String.length a + 10 + j ∧ occurs_at "templates/" b j.
Proof.
  intros (a' & b' & Heq & <-).
  destruct (decide (String.length a' ≤ String.length a)) as [|Hlt]; [by left|].
  right. apply string_app_split in Heq as (u & -> & Heq); [|lia].
  destruct (templates_no_overlap _ _ _ Heq) as [->|Hlen].
  { rewrite string_length_app in Hlt. simpl in Hlt. lia. }
  apply string_app_split in Heq as (v & -> & ->); [|done].
  exists (String.length v). split; [|by exists v, b'].
  rewrite !string_length_app. simpl. lia.
Qed.

(** The last element of the split at ["templates/"]: the whole string
    when the marker does not occur, and otherwise what follows its last
    occurrence. *)
Lemma genSplit_templates_last n s :
  String.length s ≤ n →
  (strings_Index s "templates/" = None
   ∧ last (genSplit n s "templates/") = Some s)
  ∨ ∃ pre key,
      s = pre +:+ "templates/" +:+ key
      ∧ last_occurrence_at "templates/" s (String.length pre)
      ∧ last (genSplit n s "templates/") = Some key.
Proof.
  revert s. induction n as [|n IH]; intros s Hlen.
  { destruct s; simpl in Hlen; [|lia]. by left. }
  simpl. destruct (strings_Index s "templates/") as [m|] eqn:Hindex; [|by left].
  right. apply strings_Index_Some in Hindex as [(a & b & -> & <-) Hmin].
  assert (string_drop (String.length a + 10) (a +:+ "templates/" +:+ b) = b) as ->.
  { rewrite <- string_app_assoc.
    replace (String.length a + 10) with (String.length (a +:+ "templates/"))
      by (by rewrite string_length_app).
    apply string_drop_app. }
  rewrite !string_length_app in Hlen. simpl in Hlen.
  destruct (IH b) as [[Hnone Hlast]|(pre & key & -> & [Hocc Hmax] & Hlast)]; [lia|..].
  - exists a, b. rewrite last_cons, Hlast. split; [done|]. split; [|done].
    split; [by exists a, b|].
    intros n' [|(j & _ & Hj)]%templates_occurs_after; [done|].
    by destruct (strings_Index_None _ _ j Hnone).
  - exists (a +:+ "templates/" +:+ pre), key. rewrite last_cons, Hlast.
    split; [by rewrite !string_app_assoc|]. split; [|done].
    rewrite !string_length_app. simpl. split.
    + exists (a +:+ "templates/" +:+ pre), key.
      by rewrite !string_app_assoc, !string_length_app.
    + intros n' [|(j & -> & Hj)]%templates_occurs_after; [lia|].
      specialize (Hmax j Hj). lia.
Qed.

Lemma strings_Split_templates_last s :
  (strings_Index s "templates/" = None
   ∧ last (strings_Split s "templates/") = Some s)
  ∨ ∃ pre key,
      s = pre +:+ "templates/" +:+ key
      ∧ last_occurrence_at "templates/" s (String.length pre)
      ∧ last (strings_Split s "templates/") = Some key.
Proof. by apply genSplit_templates_last. Qed.

(** A last occurrence determines what follows it. *)
Lemma last_occurrence_at_unique substr pre key pre' key' :
  pre +:+ substr +:+ key = pre' +:+ substr +:+ key' →
  String.length pre = String.length pre' →
  pre = pre' ∧ key = key'.
Proof.
  intros Heq Hlen. apply string_app_split in Heq as (u & -> & Heq); [|lia].
  rewrite string_length_app in Hlen. destruct u; simpl in Hlen; [|lia].
  split.
  - clear. induction pre as [|c pre IH]; [done|].
    rewrite string_app_cons. by f_equal.
  - change (substr +:+ key = substr +:+ key') in Heq.
    by apply (inj (String.app substr)) in Heq.
Qed.

Lemma string_drop_app_ge a b k :
  string_drop (String.length a + k) (a +:+ b) = string_drop k b.
Proof. induction a as [|x a IH]; [done|]. by rewrite string_app_cons. Qed.

Lemma strings_HasSuffix_app a s suffix :
  String.length suffix ≤ String.length s →
  strings_HasSuffix (a +:+ s) suffix = strings_HasSuffix s suffix.
Proof.
  intros Hlen. unfold strings_HasSuffix. rewrite string_length_app.
  replace (String.length a + String.length s - String.length suffix)
    with (String.length a + (String.length s - String.length suffix)) by lia.
  rewrite string_drop_app_ge.
  rewrite !(bool_decide_eq_true_2 (String.length suffix ≤ _)) by lia. done.
Qed.

Lemma string_take_drop n s : string_take n s +:+ string_drop n s = s.
Proof.
  revert s. induction n as [|n IH]; intros [|c s]; simpl; try done.
  rewrite string_app_cons. by f_equal.
Qed.

(** [strings.HasSuffix]: the string ends with the suffix. *)
Lemma strings_HasSuffix_true s suffix :
  strings_HasSuffix s suffix = true ↔ ∃ a, s = a +:+ suffix.
Proof.
  unfold strings_HasSuffix. rewrite andb_true_iff, !bool_decide_eq_true. split.
  - intros [_ Hdrop].
    exists (string_take (String.length s - String.length suffix) s).
    rewrite <- Hdrop at 2. by rewrite string_take_drop.
  - intros [a ->]. rewrite string_length_app. split; [lia|].
    replace (String.length a + String.length suffix - String.length suffix)
      with (String.length a) by lia.
    apply string_drop_app.
Qed.

(** ** Regular expressions *)

Lemma string_app_nil_eq u v : u +:+ v = "" → u = "" ∧ v = "".
Proof. by destruct u. Qed.

Lemma string_app_nil_r u : u +:+ "" = u.
Proof. induction u as [|c u IH]; [done|]. rewrite string_app_cons. by f_equal. Qed.

(** The matcher is the one of the derivatives of a regular expression:
    [re_nullable] tells whether the empty string is denoted, [re_deriv c]
    denotes what may follow [c]. *)
Lemma re_nullable_spec r : re_nullable r = true ↔ re_lang r "".
Proof.
  split.
  - induction r as [| |c| |r1 IH1 r2 IH2|r1 IH1 r2 IH2|r IH]; simpl; intros Hn;
      try done; try (by constructor).
    + apply andb_true_iff in Hn as [Hn1 Hn2].
      apply (re_lang_cat _ _ "" ""); auto.
    + apply orb_true_iff in Hn as [Hn|Hn];
        [apply re_lang_alt_l|apply re_lang_alt_r]; auto.
  - intros Hlang. remember "" as e eqn:He.
    induction Hlang as [| | |r1 r2 u v _ IH1 _ IH2|r1 r2 u _ IH|r1 r2 u _ IH| |];
      simpl; try done.
    + apply string_app_nil_eq in He as [-> ->]. by rewrite IH1, IH2.
    + by rewrite IH.
    + rewrite IH by done. apply orb_true_r.
Qed.

Lemma re_deriv_sound c r u : re_lang (re_deriv c r) u → re_lang r (String c u).
Proof.
  revert u. induction r as [| |c'| |r1 IH1 r2 IH2|r1 IH1 r2 IH2|r IH]; intros u; simpl.
  - inversion 1.
  - inversion 1.
  - case_decide as Hc; inversion 1. subst. constructor.
  - case_decide as Hc; inversion 1. subst. by constructor.
  - destruct (re_nullable r1) eqn:Hnull.
    + inversion 1 as [| | | |? ? ? Hl|? ? ? Hr| |]; subst.
      * inversion Hl as [| | |? ? u1 u2 H1 H2| | | |]; subst.
        apply (re_lang_cat _ _ (String c u1) u2); auto.
      * apply (re_lang_cat _ _ "" (String c u)); [by apply re_nullable_spec|auto].
    + inversion 1 as [| | |? ? u1 u2 H1 H2| | | |]; subst.
      apply (re_lang_cat _ _ (String c u1) u2); auto.
  - inversion 1; subst; [apply re_lang_alt_l|apply re_lang_alt_r]; auto.
  - inversion 1 as [| | |? ? u1 u2 H1 H2| | | |]; subst.
    apply (re_lang_star_cons _ (String c u1) u2); auto.
Qed.

Lemma re_deriv_complete c r w :
  re_lang r w → ∀ u, w = String c u → re_lang (re_deriv c r) u.
Proof.
  induction 1 as [|c'|c' Hc'|r1 r2 u1 u2 H1 IH1 H2 IH2|r1 r2 u1 H1 IH1|r1 r2 u1 H2 IH2
                 |r|r u1 u2 H1 IH1 H2 IH2]; intros u Hw; simpl.
  - done.
  - injection Hw as <- <-. rewrite decide_True by done. constructor.
  - injection Hw as <- <-. rewrite decide_False by done. constructor.
  - destruct u1 as [|c1 u1].
    + apply re_nullable_spec in H1 as ->. apply re_lang_alt_r. by apply IH2.
    + rewrite string_app_cons in Hw. injection Hw as -> <-.
      assert (re_lang (re_cat (re_deriv c r1) r2) (u1 +:+ u2)) as Hcat
        by (constructor; auto).
      destruct (re_nullable r1); [by apply re_lang_alt_l|done].
  - apply re_lang_alt_l. by apply IH1.
  - apply re_lang_alt_r. by apply IH2.
  - done.
  - destruct u1 as [|c1 u1].
    + by apply IH2.
    + rewrite string_app_cons in Hw. injection Hw as -> <-.
      constructor; auto.
Qed.

(** [re_match_prefix] looks for a prefix that is denoted, [regexp_Match]
    for a substring. *)
Lemma re_match_prefix_spec r s :
  re_match_prefix r s = true ↔ ∃ u v, s = u +:+ v ∧ re_lang r u.
Proof.
  revert r. induction s as [|c s IH]; intros r; simpl.
  - rewrite orb_false_r, re_nullable_spec. split.
    + intros Hr. by exists "", "".
    + intros (u & v & [-> ->]%eq_sym%string_app_nil_eq & Hr). done.
  - rewrite orb_true_iff, re_nullable_spec, IH. split.
    + intros [Hr|(u & v & -> & Hr)].
      * by exists "", (String c s).
      * exists (String c u), v. split; [done|]. by apply re_deriv_sound.
    + intros ([|c' u] & v & Heq & Hr); [by left|right].
      rewrite string_app_cons in Heq. injection Heq as <- ->.
      exists u, v. split; [done|]. by apply (re_deriv_complete c r (String c u)).
Qed.

Lemma regexp_Match_unfold r b :
  regexp_Match r b =
    re_match_prefix r b
    || match b with
       | EmptyString => false
       | String _ b' => regexp_Match r b'
       end.
Proof. by destruct b. Qed.

Lemma regexp_Match_spec r b :
  regexp_Match r b = true ↔ ∃ a u v, b = a +:+ u +:+ v ∧ re_lang r u.
Proof.
  induction b as [|c b IH]; rewrite regexp_Match_unfold.
  - rewrite orb_false_r, re_match_prefix_spec. split.
    + intros (u & v & -> & Hr). by exists "", u, v.
    + intros (a & u & v & Heq & Hr). exists u, v. split; [|done].
      symmetry in Heq. apply string_app_nil_eq in Heq as [-> Heq]. by rewrite Heq.
  - rewrite orb_true_iff, re_match_prefix_spec, IH. split.
    + intros [(u & v & Heq & Hr)|(a & u & v & -> & Hr)].
      * by exists "", u, v.
      * by exists (String c a), u, v.
    + intros ([|c' a] & u & v & Heq & Hr).
      * left. by exists u, v.
      * right. rewrite string_app_cons in Heq. injection Heq as <- ->.
        by exists a, u, v.
Qed.

Lemma re_lang_cat_inv r1 r2 u :
  re_lang (re_cat r1 r2) u ↔ ∃ u1 u2, u = u1 +:+ u2 ∧ re_lang r1 u1 ∧ re_lang r2 u2.
Proof.
  split.
  - inversion 1 as [| | |? ? u1 u2 H1 H2| | | |]; subst. by exists u1, u2.
  - intros (u1 & u2 & -> & H1 & H2). by constructor.
Qed.

Lemma re_lang_eps_inv u : re_lang re_eps u ↔ u = "".
Proof. split; [by inversion 1|intros ->; constructor]. Qed.

Lemma re_lang_lit_inv c u : re_lang (re_lit c) u ↔ u = String c "".
Proof. split; [by inversion 1|intros ->; constructor]. Qed.

Lemma re_lang_dot_inv u : re_lang re_dot u ↔ ∃ c, u = String c "" ∧ c ≠ newline.
Proof.
  split.
  - inversion 1 as [| |c Hc| | | | |]; subst. by exists c.
  - intros (c & -> & Hc). by constructor.
Qed.

Lemma re_lang_lit_cat c r u :
  re_lang (re_cat (re_lit c) r) u ↔ ∃ u', u = String c u' ∧ re_lang r u'.
Proof.
  rewrite re_lang_cat_inv. split.
  - intros (u1 & u2 & -> & ->%re_lang_lit_inv & H2). by exists u2.
  - intros (u' & -> & H2). exists (String c ""), u'. split; [done|].
    split; [constructor|done].
Qed.

Lemma re_lang_dot_cat r u :
  re_lang (re_cat re_dot r) u ↔ ∃ c u', u = String c u' ∧ c ≠ newline ∧ re_lang r u'.
Proof.
  rewrite re_lang_cat_inv. split.
  - intros (u1 & u2 & -> & (c & -> & Hc)%re_lang_dot_inv & H2). by exists c, u2.
  - intros (c & u' & -> & Hc & H2). exists (String c ""), u'. split; [done|].
    split; [by constructor|done].
Qed.

(** [.*] denotes the strings without a newline. *)
Lemma re_lang_star_dot w :
  re_lang (re_star re_dot) w ↔ newline ∉ String.list_ascii_of_string w.
Proof.
  split.
  - intros Hw. remember (re_star re_dot) as r eqn:Hr.
    induction Hw as [| | | | | | |r u v Hu _ _ IHv]; try done.
    + intros []%elem_of_nil.
    + injection Hr as ->. apply re_lang_dot_inv in Hu as (c & -> & Hc).
      rewrite string_app_cons. simpl.
      intros [Heq|Hin]%elem_of_cons; [done|]. by apply IHv.
  - induction w as [|c w IH]; simpl; [constructor|].
    intros [Hc Hw]%not_elem_of_cons.
    apply (re_lang_star_cons _ (String c "") w); [|by apply IH].
    constructor. by intros ->.
Qed.

(** What [templates/.*.yaml] denotes. *)
Lemma templateFileNameRegex_lang u :
  re_lang (regexp_parse templateFileNameRegex) u ↔
  ∃ w c, u = "templates/" +:+ w +:+ String c "yaml"
         ∧ (newline ∉ String.list_ascii_of_string w) ∧ c ≠ newline.
Proof.
  change (regexp_parse templateFileNameRegex) with
    (re_cat (re_lit "t") (re_cat (re_lit "e") (re_cat (re_lit "m") (re_cat (re_lit "p")
    (re_cat (re_lit "l") (re_cat (re_lit "a") (re_cat (re_lit "t") (re_cat (re_lit "e")
    (re_cat (re_lit "s") (re_cat (re_lit "/")
    (re_cat (re_star re_dot)
    (re_cat re_dot
    (re_cat (re_lit "y") (re_cat (re_lit "a") (re_cat (re_lit "m") (re_cat (re_lit "l")
     re_eps)))))))))))))))).
  split.
  - intros Hu. do 10 (apply re_lang_lit_cat in Hu as (? & -> & Hu)).
    apply re_lang_cat_inv in Hu as (w & rest & -> & Hw%re_lang_star_dot & Hu).
    apply re_lang_dot_cat in Hu as (c & ? & -> & Hc & Hu).
    do 4 (apply re_lang_lit_cat in Hu as (? & -> & Hu)).
    apply re_lang_eps_inv in Hu as ->. by exists w, c.
  - intros (w & c & -> & Hw & Hc).
    do 10 (apply re_lang_lit_cat; eexists; split; [reflexivity|]).
    apply re_lang_cat_inv. exists w, (String c "yaml"). split; [done|].
    split; [by apply re_lang_star_dot|].
    apply re_lang_dot_cat. exists c, "yaml". split; [done|]. split; [done|].
    do 4 (apply re_lang_lit_cat; eexists; split; [reflexivity|]).
    constructor.
Qed.

(** [isTemplateFile]: somewhere in the name ["templates/"] is followed, on
    the same line, by at least one character and then ["yaml"]. *)
Lemma isTemplateFile_spec name :
  isTemplateFile name = true ↔
  ∃ dir w c rest,
    name = dir +:+ "templates/" +:+ w +:+ String c "yaml" +:+ rest
    ∧ (newline ∉ String.list_ascii_of_string w) ∧ c ≠ newline.
Proof.
  unfold isTemplateFile. rewrite regexp_Match_spec. split.
  - intros (a & u & v & -> & (w & c & -> & Hw & Hc)%templateFileNameRegex_lang).
    exists a, w, c, v. split; [|done].
    by rewrite !string_app_assoc.
  - intros (a & w & c & v & -> & Hw & Hc).
    exists a, ("templates/" +:+ w +:+ String c "yaml"), v.
    split; [by rewrite !string_app_assoc|].
    apply templateFileNameRegex_lang. by exists w, c.
Qed.

Lemma regexp_Match_app r a b :
  re_match_prefix r b = true → regexp_Match r (a +:+ b) = true.
Proof.
  intros Hb. induction a as [|c a IH].
  - rewrite regexp_Match_unfold. change ("" +:+ b) with b. by rewrite Hb.
  - rewrite string_app_cons, regexp_Match_unfold, IH. apply orb_true_r.
Qed.

(** A path that matches [templateFileNameRegex] contains
    ["templates/"]. *)
Lemma isTemplateFile_occurs name :
  isTemplateFile name = true → ∃ n, occurs_at "templates/" name n.
Proof.
  intros (dir & w & c & rest & -> & _)%isTemplateFile_spec.
  exists (String.length dir), dir. by eexists.
Qed.

(** ** [parsePackageFile]: template files *)

Lemma parsePackageFile_isTemplateFile filePath fileBytes currentPackage :
  isOperatorFile filePath = false →
  isTemplateFile filePath = true →
  ∃ pre key,
    filePath = pre +:+ "templates/" +:+ key
    ∧ last_occurrence_at "templates/" filePath (String.length pre)
    ∧ parsePackageFile filePath fileBytes currentPackage =
        (set_Templates currentPackage
           (<[key := fileBytes]> (PackageFiles_Templates currentPackage)), None).
Proof.
  intros Hop Htpl. unfold parsePackageFile. rewrite Hop, Htpl.
  destruct (strings_Split_templates_last filePath)
    as [[Hnone _]|(pre & key & Heq & Hlast & ->)].
  - destruct (isTemplateFile_occurs _ Htpl) as [n Hn].
    by destruct (strings_Index_None _ _ n Hnone).
  - by exists pre, key.
Qed.

(** The key of a template path is a function of the path. *)
Lemma parsePackageFile_template_key filePath fileBytes currentPackage pre key :
  isOperatorFile filePath = false →
  isTemplateFile filePath = true →
  filePath = pre +:+ "templates/" +:+ key →
  last_occurrence_at "templates/" filePath (String.length pre) →
  parsePackageFile filePath fileBytes currentPackage =
    (set_Templates currentPackage
       (<[key := fileBytes]> (PackageFiles_Templates currentPackage)), None).
Proof.
  intros Hop Htpl Heq [_ Hmax].
  destruct (parsePackageFile_isTemplateFile filePath fileBytes currentPackage Hop Htpl)
    as (pre' & key' & Heq' & [_ Hmax'] & ->).
  assert (String.length pre = String.length pre') as Hlen.
  { apply Nat.le_antisymm.
    - apply Hmax'. by exists pre, key.
    - apply Hmax. by exists pre', key'. }
  rewrite Heq in Heq'.
  by destruct (last_occurrence_at_unique _ _ _ _ _ Heq' Hlen) as [_ ->].
Qed.

(** A path ending in [templates/foo.yaml] is stored under [foo.yaml]. *)
Lemma parsePackageFile_templates_foo dir fileBytes currentPackage :
  parsePackageFile (dir +:+ "templates/foo.yaml") fileBytes currentPackage =
    (set_Templates currentPackage
       (<["foo.yaml" := fileBytes]> (PackageFiles_Templates currentPackage)), None).
Proof.
  apply (parsePackageFile_template_key _ _ _ dir).
  - unfold isOperatorFile. by rewrite strings_HasSuffix_app by (simpl; lia).
  - by apply regexp_Match_app.
  - done.
  - split; [by exists dir, "foo.yaml"|].
    intros n [|(j & _ & a & b & Heq & _)]%templates_occurs_after; [done|].
    exfalso. do 9 (destruct a as [|? a]; [cbv in Heq; simplify_eq|]).
    cbv in Heq. simplify_eq.
Qed.

(** A nested path ending in [templates/sub/foo.yaml] is stored under
    [sub/foo.yaml]. *)
Lemma parsePackageFile_templates_sub_foo dir fileBytes currentPackage :
  parsePackageFile (dir +:+ "templates/sub/foo.yaml") fileBytes currentPackage =
    (set_Templates currentPackage
       (<["sub/foo.yaml" := fileBytes]> (PackageFiles_Templates currentPackage)), None).
Proof.
  apply (parsePackageFile_template_key _ _ _ dir).
  - unfold isOperatorFile. by rewrite strings_HasSuffix_app by (simpl; lia).
  - by apply regexp_Match_app.
  - done.
  - split; [by exists dir, "sub/foo.yaml"|].
    intros n [|(j & _ & a & b & Heq & _)]%templates_occurs_after; [done|].
    exfalso. do 13 (destruct a as [|? a]; [cbv in Heq; simplify_eq|]).
    cbv in Heq. simplify_eq.
Qed.

(** C6. A file whose path is classified as a template is stored under
    the key that follows the last occurrence of ["templates/"] in the
    path, and a later template file with the same key overwrites the
    entry; a path ending in [templates/foo.yaml] is stored under
    [foo.yaml] and one ending in [templates/sub/foo.yaml] under
    [sub/foo.yaml]. *)
Theorem parsePackageFile_template_stored fileBytes currentPackage :
  (∀ filePath,
     isOperatorFile filePath = false →
     isTemplateFile filePath = true →
     ∃ pre key,
       filePath = pre +:+ "templates/" +:+ key
       ∧ last_occurrence_at "templates/" filePath (String.length pre)
       ∧ parsePackageFile filePath fileBytes currentPackage =
           (set_Templates currentPackage
              (<[key := fileBytes]> (PackageFiles_Templates currentPackage)), None)
       ∧ PackageFiles_Templates
           (parsePackageFile filePath fileBytes currentPackage).1 !! key
         = Some fileBytes
       ∧ ∀ laterPath laterBytes pre',
           isOperatorFile laterPath = false →
           isTemplateFile laterPath = true →
           laterPath = pre' +:+ "templates/" +:+ key →
           last_occurrence_at "templates/" laterPath (String.length pre') →
           parsePackageFile laterPath laterBytes
             (parsePackageFile filePath fileBytes currentPackage).1 =
             (set_Templates currentPackage
                (<[key := laterBytes]> (PackageFiles_Templates currentPackage)),
              None))
  ∧ (∀ dir,
       parsePackageFile (dir +:+ "templates/foo.yaml") fileBytes currentPackage =
         (set_Templates currentPackage
            (<["foo.yaml" := fileBytes]> (PackageFiles_Templates currentPackage)),
          None))
  ∧ (∀ dir,
       parsePackageFile (dir +:+ "templates/sub/foo.yaml") fileBytes currentPackage =
         (set_Templates currentPackage
            (<["sub/foo.yaml" := fileBytes]> (PackageFiles_Templates currentPackage)),
          None)).
Proof.
  split; [|split; intros dir;
             [apply parsePackageFile_templates_foo
             |apply parsePackageFile_templates_sub_foo]].
  intros filePath Hop Htpl.
  destruct (parsePackageFile_isTemplateFile filePath fileBytes currentPackage Hop Htpl)
    as (pre & key & Heq & Hlast & Hparse).
  exists pre, key. rewrite Hparse. simpl.
  split; [done|]. split; [done|]. split; [done|].
  split; [apply lookup_insert_eq|].
  intros laterPath laterBytes pre' Hop' Htpl' Heq' Hlast'.
  rewrite (parsePackageFile_template_key _ _ _ pre' key Hop' Htpl' Heq' Hlast').
  unfold set_Templates. simpl. by rewrite insert_insert_eq.
Qed.

(** ** [parsePackageFile]: the parameters file *)

Lemma strconv_ParseBool_error str :
  str ∉ ["1"; "t"; "T"; "TRUE"; "true"; "True";
         "0"; "f"; "F"; "FALSE"; "false"; "False"] →
  strconv_ParseBool str = (false, Some (strconv_NumError "ParseBool" str)).
Proof.
  intros Hstr. unfold strconv_ParseBool.
  change (str ∉ ["1"; "t"; "T"; "TRUE"; "true"; "True"]
                ++ ["0"; "f"; "F"; "FALSE"; "false"; "False"]) in Hstr.
  apply not_elem_of_app in Hstr as [Htrue Hfalse].
  by rewrite !bool_decide_eq_false_2.
Qed.

Lemma parseParameter_inl paramName param r :
  parseParameter paramName param = inl r →
  Parameter_Name r = paramName
  ∧ Parameter_Default r = param !! "default"
  ∧ (param !! "required" = None → Parameter_Required r = true).
Proof.
  unfold parseParameter, kudo_String.
  destruct (param !! "required") as [v|]; simpl.
  - destruct (strconv_ParseBool v) as [parsed [err|]]; [done|].
    intros [= <-]. simpl. by destruct (param !! "default").
  - intros [= <-]. simpl. by destruct (param !! "default").
Qed.

Lemma parseParameter_required_absent paramName param :
  param !! "required" = None → ∃ r, parseParameter paramName param = inl r.
Proof. intros Hreq. unfold parseParameter. rewrite Hreq. eauto. Qed.

Lemma parseParameter_required_malformed paramName param v :
  param !! "required" = Some v →
  v ∉ ["1"; "t"; "T"; "TRUE"; "true"; "True";
       "0"; "f"; "F"; "FALSE"; "false"; "False"] →
  parseParameter paramName param =
    inr (errors_Wrap (strconv_NumError "ParseBool" v)
           ("failed parsing required field from parameter " +:+ paramName
            +:+ ". cannot convert " +:+ v +:+ " to bool")).
Proof.
  intros Hreq Hv. unfold parseParameter. rewrite Hreq. simpl.
  by rewrite (strconv_ParseBool_error v Hv).
Qed.

(** A run of the loop that ends without an error has appended the
    parameter of every entry, in the order of the entries. *)
Lemma parseParameters_inl entries paramsStruct result :
  parseParameters entries paramsStruct = inl result →
  ∃ rs, result = paramsStruct ++ rs
        ∧ Forall2 (λ entry r, parseParameter entry.1 entry.2 = inl r) entries rs.
Proof.
  revert paramsStruct.
  induction entries as [|[paramName param] entries IH]; intros paramsStruct; simpl.
  - intros [= <-]. exists []. by rewrite app_nil_r.
  - destruct (parseParameter paramName param) as [r|err] eqn:Hr; [|done].
    intros (rs & -> & Hrs)%IH. exists (r :: rs).
    split; [by rewrite <- app_assoc|]. by constructor.
Qed.

(** An entry that cannot be parsed makes the loop return an error. *)
Lemma parseParameters_inr entries paramsStruct entry err :
  entry ∈ entries →
  parseParameter entry.1 entry.2 = inr err →
  ∃ err', parseParameters entries paramsStruct = inr err'.
Proof.
  revert paramsStruct.
  induction entries as [|[paramName param] entries IH]; intros paramsStruct Hin Herr.
  { by apply elem_of_nil in Hin. }
  simpl. destruct (parseParameter paramName param) as [r|err0] eqn:Hr; [|eauto].
  apply elem_of_cons in Hin as [->|Hin]; [simpl in Herr; congruence|].
  by apply IH.
Qed.

Lemma elem_of_range_params params paramName param :
  (paramName, param) ∈ range_params params ↔ params !! paramName = Some param.
Proof. rewrite range_params_Permutation. apply elem_of_map_to_list. Qed.

Lemma parsePackageFile_isParametersFile filePath fileBytes currentPackage params :
  isOperatorFile filePath = false →
  isTemplateFile filePath = false →
  isParametersFile filePath = true →
  yaml_Unmarshal_params fileBytes = (params, None) →
  parsePackageFile filePath fileBytes currentPackage =
    match parseParameters (range_params params) [] with
    | inr err => (currentPackage, Some err)
    | inl paramsStruct => (set_Params currentPackage (Some paramsStruct), None)
    end.
Proof.
  intros Hop Htpl Hpar Hyaml. unfold parsePackageFile.
  by rewrite Hop, Htpl, Hpar, Hyaml.
Qed.

(** After a parameters file was parsed without an error, the parameter
    list holds, for each entry of the file, the parameter built from
    it. *)
Lemma parsePackageFile_parameters filePath fileBytes currentPackage params result :
  isOperatorFile filePath = false →
  isTemplateFile filePath = false →
  isParametersFile filePath = true →
  yaml_Unmarshal_params fileBytes = (params, None) →
  parsePackageFile filePath fileBytes currentPackage = (result, None) →
  ∃ paramsStruct,
    PackageFiles_Params result = Some paramsStruct
    ∧ (∀ paramName param, params !! paramName = Some param →
         ∃ r, r ∈ paramsStruct ∧ parseParameter paramName param = inl r)
    ∧ (∀ r, r ∈ paramsStruct →
         ∃ param, params !! Parameter_Name r = Some param
                  ∧ parseParameter (Parameter_Name r) param = inl r).
Proof.
  intros Hop Htpl Hpar Hyaml.
  rewrite (parsePackageFile_isParametersFile _ _ _ params) by done.
  destruct (parseParameters (range_params params) []) as [paramsStruct|err] eqn:Hloop;
    [|done].
  intros [= <-]. exists paramsStruct. split; [done|].
  apply parseParameters_inl in Hloop as (rs & -> & Hrs). simpl. split.
  - intros paramName param Hin%elem_of_range_params.
    destruct (proj1 (list_elem_of_lookup _ _) Hin) as [k Hk].
    destruct (Forall2_lookup_l _ _ _ _ _ Hrs Hk) as (r & Hr & Hparse).
    exists r. split; [|done]. by apply (list_elem_of_lookup_2 _ k).
  - intros r Hin.
    destruct (proj1 (list_elem_of_lookup _ _) Hin) as [k Hk].
    destruct (Forall2_lookup_r _ _ _ _ _ Hrs Hk) as ([paramName param] & Hentry & Hparse).
    simpl in Hparse. destruct (parseParameter_inl _ _ _ Hparse) as [Hname _].
    exists param. rewrite Hname. split; [|done].
    apply elem_of_range_params. by apply (list_elem_of_lookup_2 _ k).
Qed.

(** The only error of the loop body is the wrapped [strconv] error. *)
Lemma parseParameter_inr paramName param err :
  parseParameter paramName param = inr err →
  ∃ v, param !! "required" = Some v
       ∧ err = errors_Wrap (strconv_NumError "ParseBool" v)
                 ("failed parsing required field from parameter " +:+ paramName
                  +:+ ". cannot convert " +:+ v +:+ " to bool").
Proof.
  unfold parseParameter, strconv_ParseBool.
  destruct (param !! "required") as [v|]; simpl; [|done].
  repeat case_bool_decide; simpl; [done..|].
  intros [= <-]. by exists v.
Qed.

Lemma parseParameters_inr_inv entries paramsStruct err :
  parseParameters entries paramsStruct = inr err →
  ∃ entry, entry ∈ entries ∧ parseParameter entry.1 entry.2 = inr err.
Proof.
  revert paramsStruct.
  induction entries as [|[paramName param] entries IH]; intros paramsStruct; simpl;
    [done|].
  destruct (parseParameter paramName param) as [r|err0] eqn:Hr.
  - intros (entry & Hin & Hentry)%IH. exists entry. split; [by right|done].
  - intros [= <-]. exists (paramName, param). split; [by left|done].
Qed.

(** An entry whose "required" value, if any, is one [strconv.ParseBool]
    accepts gives a parameter. *)
Lemma parseParameter_required_ok paramName param :
  (∀ v, param !! "required" = Some v →
        v ∈ ["1"; "t"; "T"; "TRUE"; "true"; "True";
             "0"; "f"; "F"; "FALSE"; "false"; "False"]) →
  ∃ r, parseParameter paramName param = inl r.
Proof.
  intros Hok. unfold parseParameter, strconv_ParseBool.
  destruct (param !! "required") as [v|]; simpl; [|eauto].
  specialize (Hok v eq_refl).
  change (v ∈ ["1"; "t"; "T"; "TRUE"; "true"; "True"]
              ++ ["0"; "f"; "F"; "FALSE"; "false"; "False"]) in Hok.
  apply elem_of_app in Hok.
  repeat case_bool_decide; simpl; eauto. by destruct Hok.
Qed.

(** The loop ends without an error when every entry gives a parameter. *)
Lemma parseParameters_ok entries paramsStruct :
  (∀ entry, entry ∈ entries → ∃ r, parseParameter entry.1 entry.2 = inl r) →
  ∃ result, parseParameters entries paramsStruct = inl result.
Proof.
  revert paramsStruct.
  induction entries as [|[paramName param] entries IH]; intros paramsStruct Hok; simpl.
  { eauto. }
  destruct (Hok (paramName, param)) as [r Hr]; [by left|]. simpl in Hr. rewrite Hr.
  apply IH. intros entry Hin. apply Hok. by right.
Qed.

(** The entry that makes the loop body fail has a "required" value that
    [strconv.ParseBool] rejects. *)
Lemma parseParameter_inr_malformed paramName param err :
  parseParameter paramName param = inr err →
  ∃ v, param !! "required" = Some v
       ∧ (v ∉ ["1"; "t"; "T"; "TRUE"; "true"; "True";
              "0"; "f"; "F"; "FALSE"; "false"; "False"])
       ∧ err = errors_Wrap (strconv_NumError "ParseBool" v)
                 ("failed parsing required field from parameter " +:+ paramName
                  +:+ ". cannot convert " +:+ v +:+ " to bool").
Proof.
  unfold parseParameter, strconv_ParseBool.
  destruct (param !! "required") as [v|]; simpl; [|done].
  repeat case_bool_decide; simpl; [done..|].
  intros [= <-]. exists v. split; [done|]. split; [|done].
  change (v ∉ ["1"; "t"; "T"; "TRUE"; "true"; "True"]
              ++ ["0"; "f"; "F"; "FALSE"; "false"; "False"]).
  by apply not_elem_of_app.
Qed.

(** C5. For every entry of a parameters file: when the entry has no
    "required" key, its parameter has [Required = true], and the file is
    parsed without an error, into a parameter list that holds this
    parameter, as soon as no entry of the file has a "required" value
    that [strconv.ParseBool] rejects; when the key is there but its value
    is not one [strconv.ParseBool] accepts, [parsePackageFile] returns an
    error, the wrapped [strconv] error of an entry of the file with such a
    value (of this entry when it is the only one), and leaves the package
    as it was, no default is applied.  The file is parsed without an error
    exactly when every "required" value in it is accepted. *)
Theorem parsePackageFile_required filePath fileBytes currentPackage params
    paramName param :
  isOperatorFile filePath = false →
  isTemplateFile filePath = false →
  isParametersFile filePath = true →
  yaml_Unmarshal_params fileBytes = (params, None) →
  params !! paramName = Some param →
  (param !! "required" = None →
     (∃ r, parseParameter paramName param = inl r ∧ Parameter_Required r = true)
     ∧ (∀ result,
          parsePackageFile filePath fileBytes currentPackage = (result, None) →
          ∃ paramsStruct,
            PackageFiles_Params result = Some paramsStruct
            ∧ (∃ r, r ∈ paramsStruct ∧ Parameter_Name r = paramName)
            ∧ ∀ r, r ∈ paramsStruct → Parameter_Name r = paramName →
                   Parameter_Required r = true)
     ∧ ((∀ name p w, params !! name = Some p → p !! "required" = Some w →
                     w ∈ ["1"; "t"; "T"; "TRUE"; "true"; "True";
                          "0"; "f"; "F"; "FALSE"; "false"; "False"]) →
        ∃ paramsStruct,
          parsePackageFile filePath fileBytes currentPackage
          = (set_Params currentPackage (Some paramsStruct), None)
          ∧ (∃ r, r ∈ paramsStruct ∧ Parameter_Name r = paramName)
          ∧ ∀ r, r ∈ paramsStruct → Parameter_Name r = paramName →
                 Parameter_Required r = true))
  ∧ (∀ v, param !! "required" = Some v →
          v ∉ ["1"; "t"; "T"; "TRUE"; "true"; "True";
               "0"; "f"; "F"; "FALSE"; "false"; "False"] →
          (∃ paramName' param' v',
             params !! paramName' = Some param'
             ∧ param' !! "required" = Some v'
             ∧ (v' ∉ ["1"; "t"; "T"; "TRUE"; "true"; "True";
                     "0"; "f"; "F"; "FALSE"; "false"; "False"])
             ∧ parsePackageFile filePath fileBytes currentPackage =
                 (currentPackage,
                  Some (errors_Wrap (strconv_NumError "ParseBool" v')
                          ("failed parsing required field from parameter "
                           +:+ paramName' +:+ ". cannot convert " +:+ v'
                           +:+ " to bool"))))
          ∧ ((∀ name p w, params !! name = Some p → p !! "required" = Some w →
                          w ∉ ["1"; "t"; "T"; "TRUE"; "true"; "True";
                               "0"; "f"; "F"; "FALSE"; "false"; "False"] →
                          name = paramName) →
             parsePackageFile filePath fileBytes currentPackage =
               (currentPackage,
                Some (errors_Wrap (strconv_NumError "ParseBool" v)
                        ("failed parsing required field from parameter "
                         +:+ paramName +:+ ". cannot convert " +:+ v
                         +:+ " to bool")))))
  ∧ ((parsePackageFile filePath fileBytes currentPackage).2 = None ↔
     ∀ name p w, params !! name = Some p → p !! "required" = Some w →
                 w ∈ ["1"; "t"; "T"; "TRUE"; "true"; "True";
                      "0"; "f"; "F"; "FALSE"; "false"; "False"]).
Proof.
  intros Hop Htpl Hpar Hyaml Hentry.
  assert (∀ result,
            parsePackageFile filePath fileBytes currentPackage = (result, None) →
            param !! "required" = None →
            ∃ paramsStruct,
              PackageFiles_Params result = Some paramsStruct
              ∧ (∃ r, r ∈ paramsStruct ∧ Parameter_Name r = paramName)
              ∧ ∀ r, r ∈ paramsStruct → Parameter_Name r = paramName →
                     Parameter_Required r = true) as Hparsed.
  { intros result Hresult Habsent.
    destruct (parsePackageFile_parameters _ _ _ _ _ Hop Htpl Hpar Hyaml Hresult)
      as (paramsStruct & Hparams & Hall & Honly).
    exists paramsStruct. split; [done|]. split.
    + destruct (Hall _ _ Hentry) as (r & Hin & Hr).
      exists r. split; [done|]. by apply (parseParameter_inl _ _ _ Hr).
    + intros r Hin Hname. destruct (Honly r Hin) as (param' & Hentry' & Hr).
      rewrite Hname, Hentry in Hentry'. injection Hentry' as <-.
      by apply (parseParameter_inl _ _ _ Hr). }
  assert ((∀ name p w, params !! name = Some p → p !! "required" = Some w →
                       w ∈ ["1"; "t"; "T"; "TRUE"; "true"; "True";
                            "0"; "f"; "F"; "FALSE"; "false"; "False"]) →
          ∃ paramsStruct,
            parsePackageFile filePath fileBytes currentPackage
            = (set_Params currentPackage (Some paramsStruct), None)) as Hok.
  { intros Hall. rewrite (parsePackageFile_isParametersFile _ _ _ params) by done.
    destruct (parseParameters_ok (range_params params) []) as [paramsStruct ->];
      [|by exists paramsStruct].
    intros [name p] Hin%elem_of_range_params. apply parseParameter_required_ok.
    intros w. by apply (Hall name). }
  assert (∀ err,
            parsePackageFile filePath fileBytes currentPackage = (currentPackage, Some err)
            ∨ (parsePackageFile filePath fileBytes currentPackage).2 = Some err →
            ∃ paramName' param' v',
              params !! paramName' = Some param'
              ∧ param' !! "required" = Some v'
              ∧ (v' ∉ ["1"; "t"; "T"; "TRUE"; "true"; "True";
                      "0"; "f"; "F"; "FALSE"; "false"; "False"])
              ∧ parsePackageFile filePath fileBytes currentPackage =
                  (currentPackage,
                   Some (errors_Wrap (strconv_NumError "ParseBool" v')
                           ("failed parsing required field from parameter "
                            +:+ paramName' +:+ ". cannot convert " +:+ v'
                            +:+ " to bool")))) as Hfailed.
  { intros err. rewrite (parsePackageFile_isParametersFile _ _ _ params) by done.
    destruct (parseParameters (range_params params) []) as [paramsStruct|err'] eqn:Hloop;
      [by intros [|]|].
    intros _.
    apply parseParameters_inr_inv in Hloop as ([paramName' param'] & Hin & Herr).
    apply parseParameter_inr_malformed in Herr as (v' & Hv' & Hmalformed & ->).
    exists paramName', param', v'. by apply elem_of_range_params in Hin. }
  split; [|split].
  - intros Habsent. split; [|split].
    + destruct (parseParameter_required_absent paramName param Habsent) as [r Hr].
      exists r. split; [done|]. by apply (parseParameter_inl _ _ _ Hr).
    + intros result Hresult. by apply Hparsed.
    + intros Hall. destruct (Hok Hall) as [paramsStruct Hresult].
      exists paramsStruct. split; [done|].
      destruct (Hparsed _ Hresult Habsent) as (paramsStruct' & [= <-] & Hin & Hreq).
      done.
  - intros v Hv Hmalformed.
    assert (∃ err, (parsePackageFile filePath fileBytes currentPackage).2 = Some err)
      as [err Herr].
    { rewrite (parsePackageFile_isParametersFile _ _ _ params) by done.
      destruct (parseParameters_inr (range_params params) [] (paramName, param)
                  _ (proj2 (elem_of_range_params _ _ _) Hentry)
                  (parseParameter_required_malformed paramName param v Hv Hmalformed))
        as [err ->].
      by exists err. }
    destruct (Hfailed err (or_intror Herr))
      as (paramName' & param' & v' & Hentry' & Hv' & Hmalformed' & Hresult).
    split; [by exists paramName', param', v'|].
    intros Honly. rewrite Hresult.
    assert (paramName' = paramName) as -> by (by apply (Honly paramName' param' v')).
    rewrite Hentry in Hentry'. injection Hentry' as <-.
    rewrite Hv in Hv'. by injection Hv' as <-.
  - split.
    + intros Hnone name p w Hp Hw.
      destruct (decide (w ∈ ["1"; "t"; "T"; "TRUE"; "true"; "True";
                             "0"; "f"; "F"; "FALSE"; "false"; "False"]))
        as [|Hmalformed]; [done|].
      exfalso. revert Hnone.
      rewrite (parsePackageFile_isParametersFile _ _ _ params) by done.
      destruct (parseParameters_inr (range_params params) [] (name, p)
                  _ (proj2 (elem_of_range_params _ _ _) Hp)
                  (parseParameter_required_malformed name p w Hw Hmalformed))
        as [err ->].
      done.
    + intros Hall. destruct (Hok Hall) as [paramsStruct ->]. done.
Qed.

(** C10. For every entry of a parameters file parsed without an error,
    the [Default] of its parameter is a non-nil pointer exactly when the
    entry has a "default" key: a key with the empty string as its value
    gives a pointer to the empty string, no key gives [nil]. *)
Theorem parsePackageFile_default filePath fileBytes currentPackage params
    paramName param result :
  isOperatorFile filePath = false →
  isTemplateFile filePath = false →
  isParametersFile filePath = true →
  yaml_Unmarshal_params fileBytes = (params, None) →
  params !! paramName = Some param →
  parsePackageFile filePath fileBytes currentPackage = (result, None) →
  ∃ paramsStruct,
    PackageFiles_Params result = Some paramsStruct
    ∧ (∃ r, r ∈ paramsStruct ∧ Parameter_Name r = paramName)
    ∧ ∀ r, r ∈ paramsStruct → Parameter_Name r = paramName →
           (is_Some (Parameter_Default r) ↔ is_Some (param !! "default"))
           ∧ (param !! "default" = Some "" → Parameter_Default r = Some "")
           ∧ (param !! "default" = None → Parameter_Default r = None)
           ∧ Parameter_Default r = param !! "default".
Proof.
  intros Hop Htpl Hpar Hyaml Hentry Hresult.
  destruct (parsePackageFile_parameters _ _ _ _ _ Hop Htpl Hpar Hyaml Hresult)
    as (paramsStruct & Hparams & Hall & Honly).
  exists paramsStruct. split; [done|]. split.
  - destruct (Hall _ _ Hentry) as (r & Hin & Hr).
    exists r. split; [done|]. by apply (parseParameter_inl _ _ _ Hr).
  - intros r Hin Hname. destruct (Honly r Hin) as (param' & Hentry' & Hr).
    rewrite Hname, Hentry in Hentry'. injection Hentry' as <-.
    destruct (parseParameter_inl _ _ _ Hr) as (_ & -> & _).
    repeat split; auto.
Qed.

(** ** [validateTask] and [getCRDs] *)

(** The violation of one missing template. *)
Lemma foldl_missing_templates (templates : gmap string string) taskName resources errs :
  foldl (λ errs res,
           match templates !! res with
           | Some _ => errs
           | None => errs ++ ["task " +:+ taskName +:+ " missing template: " +:+ res]
           end) errs resources
  = errs ++ ((λ res, "task " +:+ taskName +:+ " missing template: " +:+ res)
               <$> filter (λ res, templates !! res = None) resources).
Proof.
  revert errs. induction resources as [|res resources IH]; intros errs; simpl.
  { by rewrite app_nil_r. }
  rewrite IH. destruct (templates !! res) eqn:Hres.
  - by rewrite filter_cons_False by (by rewrite Hres).
  - rewrite filter_cons_True by done. by rewrite <- app_assoc.
Qed.

(** A task of a resource-referencing kind: one violation for every
    referenced template that is not in the template set. *)
Lemma validateTask_resources t templates :
  Task_Kind t = ApplyTaskKind ∨ Task_Kind t = DeleteTaskKind →
  validateTask t templates =
    ((λ res, "task " +:+ Task_Name t +:+ " missing template: " +:+ res)
       <$> filter (λ res, templates !! res = None)
                  (ResourceTaskSpec_Resources (TaskSpec_ResourceTaskSpec (Task_Spec t))),
     []).
Proof.
  intros Hkind. unfold validateTask.
  destruct (decide (Task_Kind t = ApplyTaskKind)) as [|Hne].
  - by rewrite foldl_missing_templates.
  - destruct Hkind as [|Hkind]; [done|]. rewrite decide_True by done.
    by rewrite foldl_missing_templates.
Qed.

(** The loop over the tasks neither stops at the first violation nor
    drops one: it returns the violations of all tasks, in order. *)
Lemma validateTasks_concat tasks templates :
  validateTasks tasks templates =
    (concat ((λ tt, (validateTask tt templates).1) <$> tasks),
     concat ((λ tt, (validateTask tt templates).2) <$> tasks)).
Proof.
  unfold validateTasks.
  enough (∀ errs logged,
    foldl (λ '(errs, logged) tt,
             let '(errs', logged') := validateTask tt templates in
             (errs ++ errs', logged ++ logged'))
          (errs, logged) tasks
    = (errs ++ concat ((λ tt, (validateTask tt templates).1) <$> tasks),
       logged ++ concat ((λ tt, (validateTask tt templates).2) <$> tasks)))
    as Hgen by apply (Hgen [] []).
  induction tasks as [|tt tasks IH]; intros errs logged; simpl.
  { by rewrite !app_nil_r. }
  destruct (validateTask tt templates) as [errs' logged']. simpl.
  by rewrite IH, <- !app_assoc.
Qed.

Lemma validateTask_errs_task t templates :
  Forall (λ e, ∃ rest, e = "task " +:+ rest) (validateTask t templates).1.
Proof.
  unfold validateTask.
  repeat case_decide; cbv beta iota; rewrite foldl_missing_templates; simpl;
    try (by constructor);
    apply Forall_fmap, Forall_forall; intros res _; simpl;
    by exists (Task_Name t +:+ " missing template: " +:+ res).
Qed.

Lemma validateTasks_errs_task tasks templates :
  Forall (λ e, ∃ rest, e = "task " +:+ rest) (validateTasks tasks templates).1.
Proof.
  rewrite validateTasks_concat. simpl.
  induction tasks as [|tt tasks IH]; simpl; [constructor|].
  apply Forall_app. split; [apply validateTask_errs_task|done].
Qed.

Lemma strings_Join_task errs sep :
  errs ≠ [] →
  Forall (λ e, ∃ rest, e = "task " +:+ rest) errs →
  ∃ rest, strings_Join errs sep = "task " +:+ rest.
Proof.
  destruct errs as [|e errs]; [done|]. intros _ Hall.
  apply Forall_cons in Hall as [[rest ->] _].
  destruct errs as [|e' errs]; simpl; [by exists rest|].
  exists (rest +:+ sep +:+ strings_Join (e' :: errs) sep).
  by rewrite string_app_assoc.
Qed.

(** [getCRDs] case by case. *)
Lemma getCRDs_Operator_nil p suffix :
  PackageFiles_Operator p = None →
  getCRDs p suffix = ((None, Some (errors_New "operator.yaml file is missing")), []).
Proof. intros Hop. unfold getCRDs. by rewrite Hop. Qed.

Lemma getCRDs_Params_nil p suffix :
  is_Some (PackageFiles_Operator p) →
  PackageFiles_Params p = None →
  getCRDs p suffix = ((None, Some (errors_New "params.yaml file is missing")), []).
Proof. intros [op Hop] Hparams. unfold getCRDs. by rewrite Hop, Hparams. Qed.

Lemma getCRDs_violations p suffix p_Operator :
  PackageFiles_Operator p = Some p_Operator →
  is_Some (PackageFiles_Params p) →
  (validateTasks (Operator_Tasks p_Operator) (PackageFiles_Templates p)).1 ≠ [] →
  getCRDs p suffix =
    ((None,
      Some (errors_New
              (strings_Join
                 (validateTasks (Operator_Tasks p_Operator)
                                (PackageFiles_Templates p)).1
                 (String newline "")))),
     (validateTasks (Operator_Tasks p_Operator) (PackageFiles_Templates p)).2).
Proof.
  intros Hop [params Hparams] Herrs. unfold getCRDs. rewrite Hop, Hparams.
  destruct (validateTasks _ _) as [errs logged]. simpl in *.
  rewrite decide_True; [done|]. by destruct errs.
Qed.

Lemma getCRDs_valid p suffix p_Operator :
  PackageFiles_Operator p = Some p_Operator →
  is_Some (PackageFiles_Params p) →
  (validateTasks (Operator_Tasks p_Operator) (PackageFiles_Templates p)).1 = [] →
  ∃ crds,
    getCRDs p suffix =
      ((Some crds, None),
       (validateTasks (Operator_Tasks p_Operator) (PackageFiles_Templates p)).2)
    ∧ is_Some (PackageCRDs_Operator crds)
    ∧ is_Some (PackageCRDs_OperatorVersion crds)
    ∧ is_Some (PackageCRDs_Instance crds).
Proof.
  intros Hop [params Hparams] Herrs. unfold getCRDs. rewrite Hop, Hparams.
  destruct (validateTasks _ _) as [errs logged]. simpl in *. subst errs.
  rewrite decide_False by (intros Hne; by apply Hne).
  eexists. split; [done|]. simpl. eauto.
Qed.

Lemma getCRDs_error_nil p suffix :
  (getCRDs p suffix).1.2 ≠ None → (getCRDs p suffix).1.1 = None.
Proof.
  unfold getCRDs.
  destruct (PackageFiles_Operator p) as [p_Operator|]; [|done].
  destruct (PackageFiles_Params p) as [params|]; [|done].
  destruct (validateTasks _ _) as [errs logged].
  by destruct (decide (length errs ≠ 0)).
Qed.

(** C3. Task validation of a bundle whose metadata and parameter list
    are there (the bundles [getCRDs] validates): a task of kind apply or
    delete yields one violation, naming the task and the template, for
    every referenced template that is not in the template set; the
    violations of all tasks are collected, none is skipped; [getCRDs]
    fails exactly when that list is not empty, and then with the single
    error that joins them, one per line.  Two tasks that each miss one
    template are both in that error. *)
Theorem getCRDs_missing_templates (templates : gmap string string)
    (p_Operator : Operator) (params : list v1alpha1_Parameter) (suffix : string) :
  let p := {| PackageFiles_Templates := templates;
              PackageFiles_Operator := Some p_Operator;
              PackageFiles_Params := Some params |} in
  let errs := concat ((λ tt, (validateTask tt templates).1)
                        <$> Operator_Tasks p_Operator) in
  (∀ tt, Task_Kind tt = ApplyTaskKind ∨ Task_Kind tt = DeleteTaskKind →
         (validateTask tt templates).1 =
           (λ res, "task " +:+ Task_Name tt +:+ " missing template: " +:+ res)
             <$> filter (λ res, templates !! res = None)
                   (ResourceTaskSpec_Resources
                      (TaskSpec_ResourceTaskSpec (Task_Spec tt))))
  ∧ (errs ≠ [] →
     (getCRDs p suffix).1 =
       (None, Some (errors_New (strings_Join errs (String newline "")))))
  ∧ (errs = [] → ∃ crds, (getCRDs p suffix).1 = (Some crds, None))
  ∧ (∀ t1 t2 r1 r2,
       Operator_Tasks p_Operator = [t1; t2] →
       Task_Kind t1 = ApplyTaskKind ∨ Task_Kind t1 = DeleteTaskKind →
       Task_Kind t2 = ApplyTaskKind ∨ Task_Kind t2 = DeleteTaskKind →
       ResourceTaskSpec_Resources (TaskSpec_ResourceTaskSpec (Task_Spec t1)) = [r1] →
       ResourceTaskSpec_Resources (TaskSpec_ResourceTaskSpec (Task_Spec t2)) = [r2] →
       templates !! r1 = None →
       templates !! r2 = None →
       (getCRDs p suffix).1 =
         (None,
          Some (errors_New
                  ("task " +:+ Task_Name t1 +:+ " missing template: " +:+ r1
                   +:+ String newline ""
                   +:+ "task " +:+ Task_Name t2 +:+ " missing template: " +:+ r2)))).
Proof.
  intros p errs.
  assert ((validateTasks (Operator_Tasks p_Operator) templates).1 = errs) as Herrs
    by (by rewrite validateTasks_concat).
  split; [|split; [|split]].
  - intros tt Hkind. by rewrite validateTask_resources.
  - intros Hne.
    rewrite (getCRDs_violations p suffix p_Operator); simpl;
      [by rewrite Herrs|done|by eexists|by rewrite Herrs].
  - intros Hnil.
    destruct (getCRDs_valid p suffix p_Operator) as (crds & -> & _); simpl;
      [done|by eexists|by rewrite Herrs|by exists crds].
  - intros t1 t2 r1 r2 Htasks Hk1 Hk2 Hr1 Hr2 Hm1 Hm2.
    assert (errs = ["task " +:+ Task_Name t1 +:+ " missing template: " +:+ r1;
                    "task " +:+ Task_Name t2 +:+ " missing template: " +:+ r2])
      as Heq.
    { unfold errs. rewrite Htasks. simpl.
      rewrite !validateTask_resources by done. simpl. rewrite Hr1, Hr2.
      rewrite !filter_cons_True by done. by rewrite !filter_nil. }
    rewrite (getCRDs_violations p suffix p_Operator); simpl;
      [|done|by eexists|by rewrite Herrs, Heq].
    rewrite Herrs, Heq. simpl. by rewrite !string_app_assoc.
Qed.

(** C4. [getCRDs] fails with one error when the operator is [nil] and
    with another when the parameter list is [nil]; a parameter list
    that is empty but not [nil] passes the check: [getCRDs] then
    returns an error only for a task violation, never the
    missing-parameters one. *)
Theorem getCRDs_preconditions (p : PackageFiles) (suffix : string) :
  (PackageFiles_Operator p = None →
   (getCRDs p suffix).1 = (None, Some (errors_New "operator.yaml file is missing")))
  ∧ (is_Some (PackageFiles_Operator p) → PackageFiles_Params p = None →
     (getCRDs p suffix).1 = (None, Some (errors_New "params.yaml file is missing")))
  ∧ errors_New "operator.yaml file is missing"
    ≠ errors_New "params.yaml file is missing"
  ∧ (∀ p_Operator,
       PackageFiles_Operator p = Some p_Operator →
       PackageFiles_Params p = Some [] →
       (getCRDs p suffix).1.2 ≠ Some (errors_New "params.yaml file is missing")
       ∧ (getCRDs p suffix).1.2 ≠ Some (errors_New "operator.yaml file is missing")
       ∧ ((validateTasks (Operator_Tasks p_Operator) (PackageFiles_Templates p)).1 = [] →
          ∃ crds, (getCRDs p suffix).1 = (Some crds, None))).
Proof.
  split; [|split; [|split]].
  - intros Hop. by rewrite getCRDs_Operator_nil.
  - intros Hop Hparams. by rewrite getCRDs_Params_nil.
  - done.
  - intros p_Operator Hop Hparams.
    assert (is_Some (PackageFiles_Params p)) as Hsome by (by rewrite Hparams).
    destruct (decide ((validateTasks (Operator_Tasks p_Operator)
                         (PackageFiles_Templates p)).1 = [])) as [Hnil|Hne].
    + destruct (getCRDs_valid p suffix p_Operator Hop Hsome Hnil) as (crds & -> & _).
      simpl. split; [done|]. split; [done|]. by exists crds.
    + rewrite (getCRDs_violations p suffix p_Operator Hop Hsome Hne). simpl.
      destruct (strings_Join_task _ (String newline "") Hne
                  (validateTasks_errs_task _ _)) as [rest ->].
      split; [done|]. split; [done|]. done.
Qed.

(** C9. [getCRDs] checks that the package is complete before it looks at
    the tasks: without the operator the missing-operator error is
    returned, whatever the parameter list is; with the operator but
    without the parameter list the missing-parameters error is returned
    and no task was validated (nothing was logged); and whenever an
    error is returned the returned [*PackageCRDs] is [nil]. *)
Theorem getCRDs_completeness_first (p : PackageFiles) (suffix : string) :
  (PackageFiles_Operator p = None →
   getCRDs p suffix =
     ((None, Some (errors_New "operator.yaml file is missing")), []))
  ∧ (is_Some (PackageFiles_Operator p) → PackageFiles_Params p = None →
     getCRDs p suffix =
       ((None, Some (errors_New "params.yaml file is missing")), []))
  ∧ ((getCRDs p suffix).1.2 ≠ None → (getCRDs p suffix).1.1 = None).
Proof.
  split; [|split].
  - apply getCRDs_Operator_nil.
  - apply getCRDs_Params_nil.
  - apply getCRDs_error_nil.
Qed.

(** ** [mapPaths] *)

Lemma mapPaths_filter {Fs : Type} (fs : Fs) paths
    (f : Fs → string → option PackageFilesDigest * option error) :
  mapPaths fs paths f =
    ((λ path, (f fs path).1) <$> filter (λ path, (f fs path).2 = None) paths,
     (λ path, "WARNING: operator: " +:+ path +:+ " is invalid")
       <$> filter (λ path, (f fs path).2 ≠ None) paths).
Proof.
  unfold mapPaths.
  enough (∀ ops printed,
    foldl (λ '(ops, printed) path,
             let '(op, err) := f fs path in
             match err with
             | Some _ =>
                 (ops, printed ++ ["WARNING: operator: " +:+ path +:+ " is invalid"])
             | None => (ops ++ [op], printed)
             end)
          (ops, printed) paths
    = (ops ++ ((λ path, (f fs path).1)
                 <$> filter (λ path, (f fs path).2 = None) paths),
       printed ++ ((λ path, "WARNING: operator: " +:+ path +:+ " is invalid")
                     <$> filter (λ path, (f fs path).2 ≠ None) paths)))
    as Hgen by apply (Hgen [] []).
  induction paths as [|path paths IH]; intros ops printed; simpl.
  { by rewrite !app_nil_r. }
  destruct (f fs path) as [op [err|]] eqn:Hf; rewrite IH.
  - rewrite filter_cons_False by (by rewrite Hf).
    rewrite filter_cons_True by (by rewrite Hf). simpl. by rewrite <- app_assoc.
  - rewrite filter_cons_True by (by rewrite Hf).
    rewrite filter_cons_False by (rewrite Hf; simpl; by intros []).
    simpl. rewrite Hf. simpl. by rewrite <- app_assoc.
Qed.

(** C7. When exactly one of the paths fails to load, [mapPaths] returns
    the results of the others, one fewer than there are paths and in the
    order of the paths, prints one warning, which names the path that
    failed, and returns nothing for that path. *)
Theorem mapPaths_one_failure {Fs : Type} (fs : Fs)
    (f : Fs → string → option PackageFilesDigest * option error)
    (before : list string) (failed : string) (after : list string) :
  Forall (λ path, (f fs path).2 = None) before →
  (f fs failed).2 ≠ None →
  Forall (λ path, (f fs path).2 = None) after →
  mapPaths fs (before ++ failed :: after) f =
    ((λ path, (f fs path).1) <$> (before ++ after),
     ["WARNING: operator: " +:+ failed +:+ " is invalid"])
  ∧ length (mapPaths fs (before ++ failed :: after) f).1
    = length (before ++ failed :: after) - 1.
Proof.
  intros Hbefore Hfailed Hafter.
  assert (∀ l : list string, Forall (λ path, (f fs path).2 = None) l →
            filter (λ path, (f fs path).2 = None) l = l
            ∧ filter (λ path, (f fs path).2 ≠ None) l = []) as Hvalid.
  { intros l Hl. induction Hl as [|path l Hpath _ [IH1 IH2]]; [done|].
    rewrite filter_cons_True by done.
    rewrite filter_cons_False by (by intros []). by rewrite IH1, IH2. }
  destruct (Hvalid _ Hbefore) as [Hb1 Hb2]. destruct (Hvalid _ Hafter) as [Ha1 Ha2].
  rewrite mapPaths_filter, !filter_app.
  rewrite filter_cons_False by (by intros ?).
  rewrite filter_cons_True by done.
  rewrite Hb1, Hb2, Ha1, Ha2. simpl. split; [done|].
  rewrite length_fmap, !length_app. simpl. lia.
Qed.

(** ** Further properties of [parsePackageFile] *)

(** The errors of the branches other than the last wrap another error. *)
Lemma parseParameters_inr_Wrap entries paramsStruct err :
  parseParameters entries paramsStruct = inr err →
  ∃ cause message, err = errors_Wrap cause message.
Proof.
  intros ([paramName param] & _ & Herr)%parseParameters_inr_inv.
  apply parseParameter_inr in Herr as (v & _ & ->). eauto.
Qed.

(** X1. [parsePackageFile] returns the "unexpected file" error exactly for
    the paths that are neither an operator file, nor a template, nor a
    parameters file, and then leaves the package as it was. *)
Theorem parsePackageFile_unexpected_file filePath fileBytes currentPackage :
  ((∃ message,
      (parsePackageFile filePath fileBytes currentPackage).2
      = Some (fmt_Errorf message))
   ↔ isOperatorFile filePath = false
     ∧ isTemplateFile filePath = false
     ∧ isParametersFile filePath = false)
  ∧ (isOperatorFile filePath = false →
     isTemplateFile filePath = false →
     isParametersFile filePath = false →
     parsePackageFile filePath fileBytes currentPackage =
       (currentPackage,
        Some (fmt_Errorf ("unexpected file when reading package from filesystem: "
                          +:+ filePath)))).
Proof.
  unfold parsePackageFile. split.
  - destruct (isOperatorFile filePath).
    { destruct (yaml_Unmarshal_Operator _ _) as [operator [err|]]; simpl;
        split; [intros [? [=]]|intros [[=] _]|intros [? [=]]|intros [[=] _]]. }
    destruct (isTemplateFile filePath).
    { simpl. split; [intros [? [=]]|intros (_ & [=] & _)]. }
    destruct (isParametersFile filePath).
    { destruct (yaml_Unmarshal_params fileBytes) as [params [err|]]; simpl.
      - split; [intros [? [=]]|intros (_ & _ & [=])].
      - destruct (parseParameters _ _) as [paramsStruct|err] eqn:Hloop; simpl.
        + split; [intros [? [=]]|intros (_ & _ & [=])].
        + apply parseParameters_inr_Wrap in Hloop as (cause & message & ->).
          split; [intros [? [=]]|intros (_ & _ & [=])]. }
    simpl. split; [done|]. intros _. eauto.
  - by intros -> -> ->.
Qed.

(** X2. [parsePackageFile] never removes a template: a key of the template
    map is still there after the call, with its old content unless the
    file is a template stored under that key. *)
Theorem parsePackageFile_keeps_templates filePath fileBytes currentPackage name content :
  PackageFiles_Templates currentPackage !! name = Some content →
  PackageFiles_Templates (parsePackageFile filePath fileBytes currentPackage).1 !! name
  = Some content
  ∨ (isOperatorFile filePath = false
     ∧ isTemplateFile filePath = true
     ∧ default "" (last (strings_Split filePath "templates/")) = name
     ∧ PackageFiles_Templates
         (parsePackageFile filePath fileBytes currentPackage).1 !! name
       = Some fileBytes).
Proof.
  intros Hname. unfold parsePackageFile.
  destruct (isOperatorFile filePath).
  { left. by destruct (yaml_Unmarshal_Operator _ _) as [operator [err|]]. }
  destruct (isTemplateFile filePath).
  { simpl. destruct (decide (default "" (last (strings_Split filePath "templates/"))
                             = name)) as [Heq|Hne].
    - right. rewrite Heq. by rewrite lookup_insert_eq.
    - left. by rewrite lookup_insert_ne. }
  left. destruct (isParametersFile filePath); [|done].
  destruct (yaml_Unmarshal_params fileBytes) as [params [err|]]; [done|].
  by destruct (parseParameters _ _).
Qed.

(** X3. Each kind of file touches its own part of the package: an operator
    file leaves the templates and the parameters alone, any other file the
    operator; a template file is stored whatever its bytes are, without an
    error; and a call that returns an error for a file that is not an
    operator file has changed nothing. *)
Theorem parsePackageFile_frame filePath fileBytes currentPackage :
  (isOperatorFile filePath = true →
   PackageFiles_Templates (parsePackageFile filePath fileBytes currentPackage).1
   = PackageFiles_Templates currentPackage
   ∧ PackageFiles_Params (parsePackageFile filePath fileBytes currentPackage).1
     = PackageFiles_Params currentPackage)
  ∧ (isOperatorFile filePath = false →
     PackageFiles_Operator (parsePackageFile filePath fileBytes currentPackage).1
     = PackageFiles_Operator currentPackage)
  ∧ (isOperatorFile filePath = false → isTemplateFile filePath = true →
     (parsePackageFile filePath fileBytes currentPackage).2 = None
     ∧ PackageFiles_Params (parsePackageFile filePath fileBytes currentPackage).1
       = PackageFiles_Params currentPackage)
  ∧ (isOperatorFile filePath = false →
     (parsePackageFile filePath fileBytes currentPackage).2 ≠ None →
     (parsePackageFile filePath fileBytes currentPackage).1 = currentPackage).
Proof.
  unfold parsePackageFile. split; [|split; [|split]].
  - intros ->. by destruct (yaml_Unmarshal_Operator _ _) as [operator [err|]].
  - intros ->. destruct (isTemplateFile filePath); [done|].
    destruct (isParametersFile filePath); [|done].
    destruct (yaml_Unmarshal_params fileBytes) as [params [err|]]; [done|].
    by destruct (parseParameters _ _).
  - by intros -> ->.
  - intros ->. destruct (isTemplateFile filePath); [done|].
    destruct (isParametersFile filePath); [|done].
    destruct (yaml_Unmarshal_params fileBytes) as [params [err|]]; [done|].
    by destruct (parseParameters _ _).
Qed.

(** The names of the parameters the loop appends are the names of the
    entries, in the order of the entries. *)
Lemma parseParameters_names entries rs :
  Forall2 (λ entry r, parseParameter entry.1 entry.2 = inl r) entries rs →
  Parameter_Name <$> rs = entries.*1.
Proof.
  induction 1 as [|[paramName param] r entries rs Hr _ IH]; [done|].
  simpl in *. f_equal; [|done]. by apply (parseParameter_inl _ _ _ Hr).
Qed.

(** X4. After a parameters file was parsed without an error the package
    has one parameter for every entry of the file and no other: the names
    of the parameters are the keys of the mapping, each once. *)
Theorem parsePackageFile_parameter_names filePath fileBytes currentPackage params result :
  isOperatorFile filePath = false →
  isTemplateFile filePath = false →
  isParametersFile filePath = true →
  yaml_Unmarshal_params fileBytes = (params, None) →
  parsePackageFile filePath fileBytes currentPackage = (result, None) →
  ∃ paramsStruct,
    PackageFiles_Params result = Some paramsStruct
    ∧ Parameter_Name <$> paramsStruct ≡ₚ (map_to_list params).*1
    ∧ NoDup (Parameter_Name <$> paramsStruct)
    ∧ length paramsStruct = size params.
Proof.
  intros Hop Htpl Hpar Hyaml.
  rewrite (parsePackageFile_isParametersFile _ _ _ params) by done.
  destruct (parseParameters (range_params params) []) as [paramsStruct|err] eqn:Hloop;
    [|done].
  intros [= <-]. exists paramsStruct. split; [done|].
  apply parseParameters_inl in Hloop as (rs & -> & Hrs). simpl.
  assert (Parameter_Name <$> rs ≡ₚ (map_to_list params).*1) as Hnames.
  { rewrite (parseParameters_names _ _ Hrs). by rewrite range_params_Permutation. }
  split; [done|]. split.
  - rewrite Hnames. apply NoDup_fst_map_to_list.
  - rewrite <- (length_fmap Parameter_Name), Hnames, length_fmap.
    apply length_map_to_list.
Qed.

Lemma strconv_ParseBool_true str :
  str ∈ ["1"; "t"; "T"; "TRUE"; "true"; "True"] → strconv_ParseBool str = (true, None).
Proof. intros Hstr. unfold strconv_ParseBool. by rewrite bool_decide_eq_true_2. Qed.

Lemma strconv_ParseBool_false str :
  str ∈ ["0"; "f"; "F"; "FALSE"; "false"; "False"] → strconv_ParseBool str = (false, None).
Proof.
  intros Hstr. unfold strconv_ParseBool.
  rewrite bool_decide_eq_false_2, bool_decide_eq_true_2; [done..|].
  intros Htrue.
  repeat (apply elem_of_cons in Hstr as [->|Hstr];
          [by repeat (apply elem_of_cons in Htrue as [?|Htrue];
                      [done|]); apply elem_of_nil in Htrue|]).
  by apply elem_of_nil in Hstr.
Qed.

(** X5. The fields of a parameter are those of its entry: description,
    trigger and display name are copied and are empty when the entry lacks
    them; [Required] is the boolean [strconv.ParseBool] reads from the
    "required" value, so "false", "0" and the like make the parameter
    optional. *)
Theorem parsePackageFile_parameter_fields filePath fileBytes currentPackage params
    paramName param result :
  isOperatorFile filePath = false →
  isTemplateFile filePath = false →
  isParametersFile filePath = true →
  yaml_Unmarshal_params fileBytes = (params, None) →
  params !! paramName = Some param →
  parsePackageFile filePath fileBytes currentPackage = (result, None) →
  ∃ paramsStruct r,
    PackageFiles_Params result = Some paramsStruct
    ∧ r ∈ paramsStruct
    ∧ Parameter_Name r = paramName
    ∧ Parameter_Description r = default "" (param !! "description")
    ∧ Parameter_Trigger r = default "" (param !! "trigger")
    ∧ Parameter_DisplayName r = default "" (param !! "displayName")
    ∧ (∀ v, param !! "required" = Some v →
            (v ∈ ["1"; "t"; "T"; "TRUE"; "true"; "True"] → Parameter_Required r = true)
            ∧ (v ∈ ["0"; "f"; "F"; "FALSE"; "false"; "False"] →
               Parameter_Required r = false)).
Proof.
  intros Hop Htpl Hpar Hyaml Hentry Hresult.
  destruct (parsePackageFile_parameters _ _ _ _ _ Hop Htpl Hpar Hyaml Hresult)
    as (paramsStruct & Hparams & Hall & _).
  destruct (Hall _ _ Hentry) as (r & Hin & Hr).
  exists paramsStruct, r. split; [done|]. split; [done|].
  revert Hr. unfold parseParameter.
  destruct (param !! "required") as [v|] eqn:Hreq; simpl.
  - destruct (strconv_ParseBool v) as [parsed [err|]] eqn:Hparse; [done|].
    intros [= <-]. simpl. repeat (split; [done|]).
    intros v' [= <-]. split; intros Hv.
    + rewrite strconv_ParseBool_true in Hparse by done. congruence.
    + rewrite strconv_ParseBool_false in Hparse by done. congruence.
  - intros [= <-]. simpl. by repeat (split; [done|]).
Qed.


(** ** Further properties of [validateTask] and [getCRDs] *)

Lemma validateTask_no_resources t templates :
  Task_Kind t ≠ ApplyTaskKind → Task_Kind t ≠ DeleteTaskKind →
  validateTask t templates =
    ([], if decide (Task_Kind t = DummyTaskKind) then []
         else ["no validation for task kind " +:+ Task_Kind t +:+ " implemented"]).
Proof.
  intros Happly Hdelete. unfold validateTask.
  rewrite !decide_False by done. by case_decide.
Qed.

Lemma fmap_eq_nil {A B} (f : A → B) (l : list A) : f <$> l = [] ↔ l = [].
Proof. split; [apply fmap_nil_inv|by intros ->]. Qed.

(** The violations of a task are those of its missing references; a task
    of another kind has none. *)
Lemma validateTask_nil_iff t templates :
  (validateTask t templates).1 = [] ↔
  ((Task_Kind t = ApplyTaskKind ∨ Task_Kind t = DeleteTaskKind) →
   ∀ res, res ∈ ResourceTaskSpec_Resources (TaskSpec_ResourceTaskSpec (Task_Spec t)) →
          is_Some (templates !! res)).
Proof.
  destruct (decide (Task_Kind t = ApplyTaskKind ∨ Task_Kind t = DeleteTaskKind))
    as [Hkind|Hkind].
  - rewrite validateTask_resources by done. simpl. rewrite fmap_eq_nil. split.
    + intros Hnil _ res Hres.
      destruct (templates !! res) eqn:Hlookup; [by eexists|].
      assert (res ∈ filter (λ res, templates !! res = None)
                (ResourceTaskSpec_Resources (TaskSpec_ResourceTaskSpec (Task_Spec t))))
        as Hin by (by apply list_elem_of_filter).
      rewrite Hnil in Hin. by apply elem_of_nil in Hin.
    + intros Hall.
      destruct (filter _ _) as [|res rest] eqn:Hfilter; [done|].
      assert (res ∈ filter (λ res, templates !! res = None)
                (ResourceTaskSpec_Resources (TaskSpec_ResourceTaskSpec (Task_Spec t))))
        as [Hnone Hres]%list_elem_of_filter by (rewrite Hfilter; left).
      destruct (Hall Hkind res Hres) as [content Hsome]. congruence.
  - assert (Task_Kind t ≠ ApplyTaskKind) as Happly
      by (intros Heq; apply Hkind; by left).
    assert (Task_Kind t ≠ DeleteTaskKind) as Hdelete
      by (intros Heq; apply Hkind; by right).
    rewrite validateTask_no_resources by done. simpl.
    split; [|done]. intros _ Hk. by destruct Hkind.
Qed.

Lemma validateTasks_nil_iff tasks templates :
  (validateTasks tasks templates).1 = [] ↔
  ∀ tt, tt ∈ tasks → (validateTask tt templates).1 = [].
Proof.
  rewrite validateTasks_concat. simpl.
  induction tasks as [|tt tasks IH]; simpl.
  - split; [|done]. intros _ tt Hin. by apply elem_of_nil in Hin.
  - rewrite app_nil, IH. split.
    + intros [Htt Hrest] tt' [->|Hin]%elem_of_cons; auto.
    + intros Hall. split; [apply Hall; by left|].
      intros tt' Hin. apply Hall. by right.
Qed.

(** X7. A task that is neither of the apply nor of the delete kind never
    yields a violation, whatever it refers to: the dummy kind silently,
    any other kind with one line in the log that names the kind. *)
Theorem validateTask_other_kinds t templates :
  Task_Kind t ≠ ApplyTaskKind → Task_Kind t ≠ DeleteTaskKind →
  (validateTask t templates).1 = []
  ∧ (Task_Kind t = DummyTaskKind → (validateTask t templates).2 = [])
  ∧ (Task_Kind t ≠ DummyTaskKind →
     (validateTask t templates).2 =
       ["no validation for task kind " +:+ Task_Kind t +:+ " implemented"]).
Proof.
  intros Happly Hdelete. rewrite validateTask_no_resources by done. simpl.
  split; [done|]. split; intros Hdummy; by case_decide.
Qed.

Lemma filter_sublist_impl {A} (P Q : A → Prop)
    `{!∀ x, Decision (P x)} `{!∀ x, Decision (Q x)} (l : list A) :
  (∀ x, P x → Q x) → filter P l `sublist_of` filter Q l.
Proof.
  intros HPQ. induction l as [|x l IH]; [done|].
  destruct (decide (P x)) as [HP|HP].
  - rewrite !filter_cons_True by auto. by constructor.
  - rewrite (filter_cons_False P) by done.
    destruct (decide (Q x)).
    + rewrite filter_cons_True by done. by constructor.
    + by rewrite filter_cons_False.
Qed.

(** X8. More templates, fewer violations: when every name the first
    template set knows is known to the second, the violations of a task
    against the second are among its violations against the first, in the
    same order. *)
Theorem validateTask_more_templates t (templates templates' : gmap string string) :
  (∀ res, is_Some (templates !! res) → is_Some (templates' !! res)) →
  (validateTask t templates').1 `sublist_of` (validateTask t templates).1.
Proof.
  intros Hmore.
  destruct (decide (Task_Kind t = ApplyTaskKind ∨ Task_Kind t = DeleteTaskKind))
    as [Hkind|Hkind].
  - rewrite !validateTask_resources by done. simpl.
    apply fmap_sublist, filter_sublist_impl. intros res Hnone.
    destruct (templates !! res) eqn:Hres; [|done].
    destruct (Hmore res) as [content Hsome]; [by eexists|congruence].
  - assert (Task_Kind t ≠ ApplyTaskKind) as Happly
      by (intros Heq; apply Hkind; by left).
    assert (Task_Kind t ≠ DeleteTaskKind) as Hdelete
      by (intros Heq; apply Hkind; by right).
    by rewrite !validateTask_no_resources by done.
Qed.

(** X9. [getCRDs] returns no error exactly when the package has an
    operator and a parameter list and every template that a task of kind
    apply or delete refers to is in the template set; it then returns the
    three CRDs. *)
Theorem getCRDs_succeeds_iff p suffix :
  ((getCRDs p suffix).1.2 = None ↔
   ∃ p_Operator,
     PackageFiles_Operator p = Some p_Operator
     ∧ is_Some (PackageFiles_Params p)
     ∧ ∀ tt res,
         tt ∈ Operator_Tasks p_Operator →
         Task_Kind tt = ApplyTaskKind ∨ Task_Kind tt = DeleteTaskKind →
         res ∈ ResourceTaskSpec_Resources (TaskSpec_ResourceTaskSpec (Task_Spec tt)) →
         is_Some (PackageFiles_Templates p !! res))
  ∧ ((getCRDs p suffix).1.2 = None ↔ is_Some (getCRDs p suffix).1.1).
Proof.
  destruct (PackageFiles_Operator p) as [p_Operator|] eqn:Hoperator.
  2:{ rewrite (getCRDs_Operator_nil p suffix Hoperator). simpl.
      split; (split; [done|]); [by intros (? & [=] & _)|by intros [? [=]]]. }
  destruct (PackageFiles_Params p) as [params|] eqn:Hparams.
  2:{ rewrite (getCRDs_Params_nil p suffix); [|by rewrite Hoperator|done]. simpl.
      split; (split; [done|]);
        [by intros (? & _ & [? [=]] & _)|by intros [? [=]]]. }
  assert (is_Some (PackageFiles_Params p)) as Hsome by (by rewrite Hparams).
  destruct (decide ((validateTasks (Operator_Tasks p_Operator)
                       (PackageFiles_Templates p)).1 = [])) as [Hnil|Hne].
  - destruct (getCRDs_valid p suffix p_Operator Hoperator Hsome Hnil) as (crds & -> & _).
    simpl. split; (split; [intros _|done]); [|by eexists].
    exists p_Operator. split; [done|]. split; [by eexists|].
    intros tt res Htt Hkind Hres.
    rewrite validateTasks_nil_iff in Hnil.
    by apply (proj1 (validateTask_nil_iff tt _) (Hnil tt Htt) Hkind).
  - rewrite (getCRDs_violations p suffix p_Operator Hoperator Hsome Hne). simpl.
    split; (split; [done|]); [|by intros [? [=]]].
    intros (p_Operator' & [= <-] & _ & Hall). destruct Hne.
    apply validateTasks_nil_iff. intros tt Htt.
    apply validateTask_nil_iff. intros Hkind res Hres. by apply (Hall tt res).
Qed.

(** A successful [getCRDs] has built its result from the operator. *)
Lemma getCRDs_Some p suffix crds logged :
  getCRDs p suffix = ((Some crds, None), logged) →
  ∃ p_Operator,
    PackageFiles_Operator p = Some p_Operator
    ∧ is_Some (PackageFiles_Params p)
    ∧ (validateTasks (Operator_Tasks p_Operator) (PackageFiles_Templates p)).1 = [].
Proof.
  destruct (PackageFiles_Operator p) as [p_Operator|] eqn:Hoperator;
    [|by rewrite (getCRDs_Operator_nil p suffix Hoperator)].
  destruct (PackageFiles_Params p) as [params|] eqn:Hparams;
    [|rewrite (getCRDs_Params_nil p suffix); [done|by rewrite Hoperator|done]].
  assert (is_Some (PackageFiles_Params p)) as Hsome by (by rewrite Hparams).
  destruct (decide ((validateTasks (Operator_Tasks p_Operator)
                       (PackageFiles_Templates p)).1 = [])) as [Hnil|Hne];
    [by exists p_Operator|].
  by rewrite (getCRDs_violations p suffix p_Operator Hoperator Hsome Hne).
Qed.

(** X10. The three CRDs refer to one another by name: the operator
    version names the operator, the instance names the operator version
    and carries the operator's name under [kudo.OperatorLabel]; the
    operator version holds the templates, tasks, parameters and plans of
    the package, and the instance starts without any plan status. *)
Theorem getCRDs_references p suffix crds logged :
  getCRDs p suffix = ((Some crds, None), logged) →
  ∃ p_Operator operator fv instance,
    PackageFiles_Operator p = Some p_Operator
    ∧ PackageCRDs_Operator crds = Some operator
    ∧ PackageCRDs_OperatorVersion crds = Some fv
    ∧ PackageCRDs_Instance crds = Some instance
    ∧ ObjectMeta_Name (v1alpha1_Operator_ObjectMeta operator) = Operator_Name p_Operator
    ∧ ObjectReference_Name (OperatorVersionSpec_Operator (OperatorVersion_Spec fv))
      = ObjectMeta_Name (v1alpha1_Operator_ObjectMeta operator)
    ∧ ObjectReference_Name (InstanceSpec_OperatorVersion (Instance_Spec instance))
      = ObjectMeta_Name (OperatorVersion_ObjectMeta fv)
    ∧ ObjectMeta_Labels (Instance_ObjectMeta instance) !! OperatorLabel
      = Some (ObjectMeta_Name (v1alpha1_Operator_ObjectMeta operator))
    ∧ OperatorVersionSpec_Templates (OperatorVersion_Spec fv) = PackageFiles_Templates p
    ∧ OperatorVersionSpec_Tasks (OperatorVersion_Spec fv) = Operator_Tasks p_Operator
    ∧ OperatorVersionSpec_Parameters (OperatorVersion_Spec fv) = PackageFiles_Params p
    ∧ OperatorVersionSpec_Plans (OperatorVersion_Spec fv) = Operator_Plans p_Operator
    ∧ InstanceStatus_PlanStatus (Instance_Status instance) = ∅.
Proof.
  intros Hget.
  destruct (getCRDs_Some p suffix crds logged Hget) as (p_Operator & Hoperator & _ & _).
  revert Hget. unfold getCRDs. rewrite Hoperator.
  destruct (PackageFiles_Params p) as [params|]; [|done].
  destruct (validateTasks _ _) as [errs logged'].
  destruct (decide (length errs ≠ 0)); [done|].
  intros [= <- _]. exists p_Operator. do 3 eexists.
  repeat (split; [reflexivity|]). simpl.
  split; [apply lookup_insert_eq|done].
Qed.

(** X11. The random suffix only names the instance: the error, the log,
    the operator and the operator version of [getCRDs] are the same for
    every suffix, the instances differ in nothing but their name, and two
    suffixes give the same instance name only when they are equal. *)
Theorem getCRDs_suffix p suffix1 suffix2 :
  (getCRDs p suffix1).1.2 = (getCRDs p suffix2).1.2
  ∧ (getCRDs p suffix1).2 = (getCRDs p suffix2).2
  ∧ ∀ crds1,
      (getCRDs p suffix1).1.1 = Some crds1 →
      ∃ crds2 instance1 instance2,
        (getCRDs p suffix2).1.1 = Some crds2
        ∧ PackageCRDs_Operator crds1 = PackageCRDs_Operator crds2
        ∧ PackageCRDs_OperatorVersion crds1 = PackageCRDs_OperatorVersion crds2
        ∧ PackageCRDs_Instance crds1 = Some instance1
        ∧ PackageCRDs_Instance crds2 = Some instance2
        ∧ Instance_TypeMeta instance1 = Instance_TypeMeta instance2
        ∧ ObjectMeta_Labels (Instance_ObjectMeta instance1)
          = ObjectMeta_Labels (Instance_ObjectMeta instance2)
        ∧ Instance_Spec instance1 = Instance_Spec instance2
        ∧ Instance_Status instance1 = Instance_Status instance2
        ∧ (ObjectMeta_Name (Instance_ObjectMeta instance1)
           = ObjectMeta_Name (Instance_ObjectMeta instance2)
           ↔ suffix1 = suffix2).
Proof.
  unfold getCRDs.
  destruct (PackageFiles_Operator p) as [p_Operator|]; [|done].
  destruct (PackageFiles_Params p) as [params|]; [|done].
  destruct (validateTasks _ _) as [errs logged].
  destruct (decide (length errs ≠ 0)); [done|]. simpl.
  split; [done|]. split; [done|].
  intros crds1 [= <-]. do 3 eexists. repeat (split; [reflexivity|]). simpl.
  split; [|by intros ->].
  intros Hname. apply (inj (String.app _)) in Hname.
  by apply (inj (String.app "-")) in Hname.
Qed.

(** X12. A template that was parsed is a template the tasks may refer to:
    after a template file was stored under its key, a task whose other
    references were already in the template set has no violation. *)
Theorem parsePackageFile_template_resolves filePath fileBytes currentPackage pre key t :
  isOperatorFile filePath = false →
  isTemplateFile filePath = true →
  filePath = pre +:+ "templates/" +:+ key →
  last_occurrence_at "templates/" filePath (String.length pre) →
  (∀ res, res ∈ ResourceTaskSpec_Resources (TaskSpec_ResourceTaskSpec (Task_Spec t)) →
          res = key ∨ is_Some (PackageFiles_Templates currentPackage !! res)) →
  (validateTask t
     (PackageFiles_Templates (parsePackageFile filePath fileBytes currentPackage).1)).1
  = [].
Proof.
  intros Hop Htpl Heq Hlast Hrefs.
  rewrite (parsePackageFile_template_key _ _ _ pre key Hop Htpl Heq Hlast). simpl.
  apply validateTask_nil_iff. intros _ res Hres.
  destruct (Hrefs res Hres) as [->|[content Hcontent]].
  - rewrite lookup_insert_eq. by eexists.
  - destruct (decide (key = res)) as [->|Hne].
    + rewrite lookup_insert_eq. by eexists.
    + rewrite lookup_insert_ne by done. by eexists.
Qed.

(** ** Further properties of [mapPaths] *)

Lemma elem_of_mapPaths {Fs : Type} (fs : Fs) paths
    (f : Fs → string → option PackageFilesDigest * option error) op :
  op ∈ (mapPaths fs paths f).1 ↔ ∃ path, path ∈ paths ∧ f fs path = (op, None).
Proof.
  rewrite mapPaths_filter. simpl. rewrite list_elem_of_fmap. split.
  - intros (path & -> & [Hok Hin]%list_elem_of_filter). exists path.
    split; [done|]. destruct (f fs path) as [op err]. simpl in *. by subst.
  - intros (path & Hin & Hf). exists path. rewrite Hf. split; [done|].
    apply list_elem_of_filter. by rewrite Hf.
Qed.

(** X13. [mapPaths] accounts for every path: it either returns a result
    for it or prints a warning, so results and warnings together are as
    many as the paths; the results are those of the paths [f] accepts and
    the warnings name, in order, the paths it rejects. *)
Theorem mapPaths_accounts {Fs : Type} (fs : Fs) paths
    (f : Fs → string → option PackageFilesDigest * option error) :
  length (mapPaths fs paths f).1 + length (mapPaths fs paths f).2 = length paths
  ∧ (∀ op, op ∈ (mapPaths fs paths f).1 ↔
           ∃ path, path ∈ paths ∧ f fs path = (op, None))
  ∧ (∀ path, "WARNING: operator: " +:+ path +:+ " is invalid" ∈ (mapPaths fs paths f).2 ↔
             path ∈ paths ∧ (f fs path).2 ≠ None).
Proof.
  split; [|split; [apply elem_of_mapPaths|]]; rewrite mapPaths_filter; simpl.
  - rewrite !length_fmap. induction paths as [|path paths IH]; [done|].
    destruct (decide ((f fs path).2 = None)) as [Hok|Herr].
    + rewrite filter_cons_True by done.
      rewrite filter_cons_False by (by intros ?). simpl. lia.
    + rewrite filter_cons_False by done. rewrite filter_cons_True by done. simpl. lia.
  - intros path. rewrite list_elem_of_fmap. split.
    + intros (path' & Heq & [Herr Hin]%list_elem_of_filter).
      apply (inj (String.app _)) in Heq.
      assert (path = path') as ->; [|done].
      assert (String.length path = String.length path') as Hlen.
      { apply (f_equal String.length) in Heq.
        rewrite !string_length_app in Heq. lia. }
      change (path +:+ " is invalid" +:+ "" = path' +:+ " is invalid" +:+ "") in Heq.
      by destruct (last_occurrence_at_unique _ _ _ _ _ Heq Hlen).
    + intros [Hin Herr]. exists path. split; [done|]. by apply list_elem_of_filter.
Qed.

(** X14. Loading two lists of paths one after the other is loading their
    concatenation: the results and the warnings are appended. *)
Theorem mapPaths_app {Fs : Type} (fs : Fs) paths1 paths2
    (f : Fs → string → option PackageFilesDigest * option error) :
  mapPaths fs (paths1 ++ paths2) f =
    ((mapPaths fs paths1 f).1 ++ (mapPaths fs paths2 f).1,
     (mapPaths fs paths1 f).2 ++ (mapPaths fs paths2 f).2).
Proof. rewrite !mapPaths_filter. simpl. by rewrite !filter_app, !fmap_app. Qed.

(** ** [pathToOperator] and [GetFilesDigest] *)

(** A load without an error went through every step. *)
Lemma pathToOperator_None fs path pfd :
  pathToOperator fs path = (pfd, None) →
  ∃ reader0 digest reader1 position reader2 b reader3 pkg,
    Fs_Open fs path = (reader0, None)
    ∧ files_Sha256Sum reader0 = ((digest, None), reader1)
    ∧ File_Seek reader1 0 io_SeekStart = ((position, None), reader2)
    ∧ ioutil_ReadAll reader2 = ((b, None), reader3)
    ∧ NewFromBytes_GetPkgFiles b = (pkg, None)
    ∧ File_Close reader3 = None
    ∧ pfd = Some {| PackageFilesDigest_PkgFiles := pkg;
                    PackageFilesDigest_Digest := digest |}.
Proof.
  unfold pathToOperator, deferredClose, bufferToPackageFiles.
  destruct (Fs_Open fs path) as [reader0 [err|]] eqn:Hopen; [done|].
  destruct (files_Sha256Sum reader0) as [[digest [err|]] reader1] eqn:Hsum;
    [by destruct (File_Close reader1)|].
  destruct (File_Seek reader1 0 io_SeekStart) as [[position [err|]] reader2] eqn:Hseek;
    [by destruct (File_Close reader2)|].
  destruct (ioutil_ReadAll reader2) as [[b [err|]] reader3] eqn:Hread;
    [by destruct (File_Close reader3)|].
  destruct (NewFromBytes_GetPkgFiles b) as [pkg [err|]] eqn:Hpkg;
    destruct (File_Close reader3) eqn:Hclose; try done.
  intros [= <-]. by exists reader0, digest, reader1, position, reader2, b, reader3, pkg.
Qed.

(** X15. Which error [pathToOperator] returns: when the file cannot be
    opened, the error of [Open], and nothing is closed; once it is open, a
    failing [Close] replaces whatever the load itself returned, an earlier
    error as well as a success. *)
Theorem pathToOperator_errors fs path reader :
  (∀ err, Fs_Open fs path = (reader, Some err) →
          pathToOperator fs path = (None, Some err))
  ∧ (∀ ferr, Fs_Open fs path = (reader, None) →
             (∀ reader', File_Close reader' = Some ferr) →
             (pathToOperator fs path).2 = Some ferr).
Proof.
  unfold pathToOperator. split.
  - by intros err ->.
  - intros ferr -> Hclose. unfold deferredClose.
    destruct (files_Sha256Sum reader) as [[digest [err|]] reader1];
      [by rewrite Hclose|].
    destruct (File_Seek reader1 0 io_SeekStart) as [[position [err|]] reader2];
      [by rewrite Hclose|].
    destruct (ioutil_ReadAll reader2) as [[b [err|]] reader3];
      [by rewrite Hclose|].
    destruct (bufferToPackageFiles b) as [pkg err]. by rewrite Hclose.
Qed.

(** X16. [pathToOperator] returns without an error exactly when opening,
    hashing, rewinding, reading, building the package and closing all
    succeed; the result then pairs the package built from the bytes read
    after the rewind with the digest taken before it. *)
Theorem pathToOperator_succeeds_iff fs path pfd :
  pathToOperator fs path = (pfd, None) ↔
  ∃ reader0 digest reader1 position reader2 b reader3 pkg,
    Fs_Open fs path = (reader0, None)
    ∧ files_Sha256Sum reader0 = ((digest, None), reader1)
    ∧ File_Seek reader1 0 io_SeekStart = ((position, None), reader2)
    ∧ ioutil_ReadAll reader2 = ((b, None), reader3)
    ∧ NewFromBytes_GetPkgFiles b = (pkg, None)
    ∧ File_Close reader3 = None
    ∧ pfd = Some {| PackageFilesDigest_PkgFiles := pkg;
                    PackageFilesDigest_Digest := digest |}.
Proof.
  split; [apply pathToOperator_None|].
  intros (reader0 & digest & reader1 & position & reader2 & b & reader3 & pkg
          & Hopen & Hsum & Hseek & Hread & Hpkg & Hclose & ->).
  unfold pathToOperator, deferredClose, bufferToPackageFiles.
  by rewrite Hopen, Hsum, Hseek, Hread, Hpkg, Hclose.
Qed.

(** X17. A package that cannot be built still comes back from
    [pathToOperator], as a digest without package files next to the error;
    [GetFilesDigest] does not pass such a result on: each of its entries is
    a non-nil pair of the digest and of the package of a path whose load
    succeeded in every step. *)
Theorem GetFilesDigest_entries fs paths :
  (∀ path reader0 digest reader1 position reader2 b reader3 pkg err,
     Fs_Open fs path = (reader0, None) →
     files_Sha256Sum reader0 = ((digest, None), reader1) →
     File_Seek reader1 0 io_SeekStart = ((position, None), reader2) →
     ioutil_ReadAll reader2 = ((b, None), reader3) →
     NewFromBytes_GetPkgFiles b = (pkg, Some err) →
     (pathToOperator fs path).1
     = Some {| PackageFilesDigest_PkgFiles := None;
               PackageFilesDigest_Digest := digest |}
     ∧ (pathToOperator fs path).2 ≠ None)
  ∧ (∀ op, op ∈ (GetFilesDigest fs paths).1 →
       ∃ path reader0 digest reader1 b pkg,
         path ∈ paths
         ∧ pathToOperator fs path = (op, None)
         ∧ Fs_Open fs path = (reader0, None)
         ∧ files_Sha256Sum reader0 = ((digest, None), reader1)
         ∧ NewFromBytes_GetPkgFiles b = (pkg, None)
         ∧ op = Some {| PackageFilesDigest_PkgFiles := pkg;
                        PackageFilesDigest_Digest := digest |}).
Proof.
  split.
  - intros path reader0 digest reader1 position reader2 b reader3 pkg err
      Hopen Hsum Hseek Hread Hpkg.
    unfold pathToOperator, deferredClose, bufferToPackageFiles.
    rewrite Hopen, Hsum, Hseek, Hread, Hpkg. by destruct (File_Close reader3).
  - intros op (path & Hin & Hload)%elem_of_mapPaths.
    destruct (pathToOperator_None _ _ _ Hload)
      as (reader0 & digest & reader1 & position & reader2 & b & reader3 & pkg
          & Hopen & Hsum & _ & _ & Hpkg & _ & ->).
    by exists path, reader0, digest, reader1, b, pkg.
Qed.

(** ** The client *)

(** The counter of [InstanceExistsInCluster] counts the matching items. *)
Lemma foldl_count {A} (P : A → Prop) `{!∀ x, Decision (P x)} (items : list A) (i : nat) :
  foldl (λ i v, if decide (P v) then i + 1 else i) i items
  = i + length (filter P items).
Proof.
  revert i. induction items as [|v items IH]; intros i; simpl; [lia|].
  rewrite IH. destruct (decide (P v)).
  - rewrite filter_cons_True by done. simpl. lia.
  - by rewrite filter_cons_False.
Qed.

Lemma InstanceExistsInCluster_filter operatorName namespace version instanceName items :
  Instances_List namespace (OperatorLabel +:+ "=" +:+ operatorName) = (items, None) →
  InstanceExistsInCluster operatorName namespace version instanceName =
    (bool_decide
       (filter (λ v, ObjectReference_Name
                       (InstanceSpec_OperatorVersion (Instance_Spec v))
                     = operatorName +:+ "-" +:+ version
                     ∧ ObjectMeta_Name (Instance_ObjectMeta v) = instanceName) items
        ≠ []), None).
Proof.
  intros Hlist. unfold InstanceExistsInCluster. rewrite Hlist.
  destruct (decide (length items < 1)) as [Hlen|Hlen].
  { destruct items; simpl in Hlen; [|lia]. by rewrite bool_decide_eq_false_2 by auto. }
  rewrite (foldl_count
             (λ v, ObjectReference_Name (InstanceSpec_OperatorVersion (Instance_Spec v))
                   = operatorName +:+ "-" +:+ version
                   ∧ ObjectMeta_Name (Instance_ObjectMeta v) = instanceName)).
  simpl. by destruct (filter _ items) as [|v rest].
Qed.

(** X18. [InstanceExistsInCluster] passes on the error of the list call;
    otherwise it answers true exactly when one of the listed instances has
    the given name and refers to the operator version
    [operatorName-version]; it never answers true next to an error. *)
Theorem InstanceExistsInCluster_iff operatorName namespace version instanceName :
  (∀ items err,
     Instances_List namespace (OperatorLabel +:+ "=" +:+ operatorName)
     = (items, Some err) →
     InstanceExistsInCluster operatorName namespace version instanceName
     = (false, Some err))
  ∧ (∀ items,
       Instances_List namespace (OperatorLabel +:+ "=" +:+ operatorName)
       = (items, None) →
       (InstanceExistsInCluster operatorName namespace version instanceName).2 = None
       ∧ ((InstanceExistsInCluster operatorName namespace version instanceName).1 = true
          ↔ ∃ v, v ∈ items
                 ∧ ObjectReference_Name
                     (InstanceSpec_OperatorVersion (Instance_Spec v))
                   = operatorName +:+ "-" +:+ version
                 ∧ ObjectMeta_Name (Instance_ObjectMeta v) = instanceName))
  ∧ ((InstanceExistsInCluster operatorName namespace version instanceName).1 = true →
     (InstanceExistsInCluster operatorName namespace version instanceName).2 = None).
Proof.
  split; [|split].
  - intros items err Hlist. unfold InstanceExistsInCluster. by rewrite Hlist.
  - intros items Hlist. rewrite (InstanceExistsInCluster_filter _ _ _ _ items Hlist).
    simpl. split; [done|]. rewrite bool_decide_eq_true. split.
    + intros Hne. destruct (filter _ items) as [|v rest] eqn:Hfilter; [done|].
      assert (v ∈ filter
                (λ v, ObjectReference_Name
                        (InstanceSpec_OperatorVersion (Instance_Spec v))
                      = operatorName +:+ "-" +:+ version
                      ∧ ObjectMeta_Name (Instance_ObjectMeta v) = instanceName) items)
        as [Hv Hin]%list_elem_of_filter by (rewrite Hfilter; left).
      by exists v.
    + intros (v & Hin & Hv) Hnil.
      assert (v ∈ filter
                (λ v, ObjectReference_Name
                        (InstanceSpec_OperatorVersion (Instance_Spec v))
                      = operatorName +:+ "-" +:+ version
                      ∧ ObjectMeta_Name (Instance_ObjectMeta v) = instanceName) items)
        as Hf by (by apply list_elem_of_filter).
      rewrite Hnil in Hf. by apply elem_of_nil in Hf.
  - destruct (Instances_List namespace (OperatorLabel +:+ "=" +:+ operatorName))
      as [items [err|]] eqn:Hlist.
    + unfold InstanceExistsInCluster. by rewrite Hlist.
    + by rewrite (InstanceExistsInCluster_filter _ _ _ _ items Hlist).
Qed.

(** X19. The instance [getCRDs] builds is one [InstanceExistsInCluster]
    recognises: it carries the operator's name under the label the list
    call selects on, and once it is among the listed instances the check
    for the operator, its version and the name of the instance answers
    true. *)
Theorem getCRDs_InstanceExistsInCluster p suffix crds logged p_Operator instance
    namespace items :
  getCRDs p suffix = ((Some crds, None), logged) →
  PackageFiles_Operator p = Some p_Operator →
  PackageCRDs_Instance crds = Some instance →
  Instances_List namespace (OperatorLabel +:+ "=" +:+ Operator_Name p_Operator)
  = (items, None) →
  instance ∈ items →
  ObjectMeta_Labels (Instance_ObjectMeta instance) !! OperatorLabel
  = Some (Operator_Name p_Operator)
  ∧ InstanceExistsInCluster (Operator_Name p_Operator) namespace
      (Operator_Version p_Operator) (Operator_Name p_Operator +:+ "-" +:+ suffix)
    = (true, None).
Proof.
  intros Hget Hoperator Hinstance Hlist Hin.
  assert (ObjectMeta_Labels (Instance_ObjectMeta instance) !! OperatorLabel
          = Some (Operator_Name p_Operator)
          ∧ ObjectReference_Name (InstanceSpec_OperatorVersion (Instance_Spec instance))
            = Operator_Name p_Operator +:+ "-" +:+ Operator_Version p_Operator
          ∧ ObjectMeta_Name (Instance_ObjectMeta instance)
            = Operator_Name p_Operator +:+ "-" +:+ suffix) as (Hlabel & Href & Hname).
  { revert Hget. unfold getCRDs. rewrite Hoperator.
    destruct (PackageFiles_Params p) as [params|]; [|done].
    destruct (validateTasks _ _) as [errs logged'].
    destruct (decide (length errs ≠ 0)); [done|].
    intros [= <- _]. simpl in Hinstance. injection Hinstance as <-. simpl.
    split; [apply lookup_insert_eq|done]. }
  split; [done|].
  rewrite (InstanceExistsInCluster_filter _ _ _ _ items Hlist).
  rewrite bool_decide_eq_true_2; [done|]. intros Hnil.
  assert (instance ∈ filter
            (λ v, ObjectReference_Name
                    (InstanceSpec_OperatorVersion (Instance_Spec v))
                  = Operator_Name p_Operator +:+ "-" +:+ Operator_Version p_Operator
                  ∧ ObjectMeta_Name (Instance_ObjectMeta v)
                    = Operator_Name p_Operator +:+ "-" +:+ suffix) items)
    as Hf by (by apply list_elem_of_filter).
  rewrite Hnil in Hf. by apply elem_of_nil in Hf.
Qed.

Lemma foldl_versions operatorName (items : list OperatorVersion) existingVersions :
  foldl (λ existingVersions v,
           if strings_HasPrefix (ObjectMeta_Name (OperatorVersion_ObjectMeta v))
                operatorName
           then existingVersions
                ++ [OperatorVersionSpec_Version (OperatorVersion_Spec v)]
           else existingVersions)
        existingVersions items
  = existingVersions
    ++ ((λ v, OperatorVersionSpec_Version (OperatorVersion_Spec v))
          <$> filter (λ v, strings_HasPrefix
                             (ObjectMeta_Name (OperatorVersion_ObjectMeta v))
                             operatorName = true) items).
Proof.
  revert existingVersions.
  induction items as [|v items IH]; intros existingVersions; simpl.
  { by rewrite app_nil_r. }
  rewrite IH. destruct (strings_HasPrefix _ operatorName) eqn:Hprefix.
  - rewrite filter_cons_True by done. simpl. by rewrite <- app_assoc.
  - by rewrite filter_cons_False by (by rewrite Hprefix).
Qed.

(** X20. [OperatorVersionsInstalled] passes on the error of the list call
    and otherwise returns exactly one entry for every listed operator
    version whose name begins with the name of the operator, in the order
    of the list and with repetitions kept: the listed operator versions
    are those that match together with those that do not, and the result
    is the list of the versions of those that match.  The test is on the
    prefix alone, so the versions of another operator whose name merely
    begins in the same way are returned too. *)
Theorem OperatorVersionsInstalled_prefix operatorName namespace :
  (∀ items err,
     OperatorVersions_List namespace "" = (items, Some err) →
     OperatorVersionsInstalled operatorName namespace = (None, Some err))
  ∧ (∀ items,
       OperatorVersions_List namespace "" = (items, None) →
       ∃ matching others versions,
         OperatorVersionsInstalled operatorName namespace = (Some versions, None)
         ∧ versions
           = (λ v, OperatorVersionSpec_Version (OperatorVersion_Spec v)) <$> matching
         ∧ length versions = length matching
         ∧ matching
           = filter (λ v, strings_HasPrefix
                            (ObjectMeta_Name (OperatorVersion_ObjectMeta v))
                            operatorName = true) items
         ∧ matching `sublist_of` items
         ∧ matching ++ others ≡ₚ items
         ∧ (∀ v, v ∈ matching →
                 ∃ rest, ObjectMeta_Name (OperatorVersion_ObjectMeta v)
                         = operatorName +:+ rest)
         ∧ (∀ v, v ∈ others →
                 ¬ ∃ rest, ObjectMeta_Name (OperatorVersion_ObjectMeta v)
                           = operatorName +:+ rest)
         ∧ versions `sublist_of`
             ((λ v, OperatorVersionSpec_Version (OperatorVersion_Spec v)) <$> items)
         ∧ ∀ version,
             version ∈ versions ↔
             ∃ v rest,
               v ∈ items
               ∧ ObjectMeta_Name (OperatorVersion_ObjectMeta v) = operatorName +:+ rest
               ∧ OperatorVersionSpec_Version (OperatorVersion_Spec v) = version).
Proof.
  split.
  - intros items err Hlist. unfold OperatorVersionsInstalled. by rewrite Hlist.
  - intros items Hlist. unfold OperatorVersionsInstalled. rewrite Hlist.
    rewrite foldl_versions. simpl.
    exists (filter (λ v, strings_HasPrefix
                           (ObjectMeta_Name (OperatorVersion_ObjectMeta v))
                           operatorName = true) items).
    exists (filter (λ v, ¬ strings_HasPrefix
                             (ObjectMeta_Name (OperatorVersion_ObjectMeta v))
                             operatorName = true) items).
    eexists. split; [done|]. split; [done|]. split; [by rewrite length_fmap|].
    split; [done|]. split; [apply sublist_filter|].
    split; [apply filter_app_complement|]. split.
    { by intros v [Hv%strings_HasPrefix_true _]%list_elem_of_filter. }
    split.
    { intros v [Hv _]%list_elem_of_filter Hrest%strings_HasPrefix_true. done. }
    split.
    + apply fmap_sublist, sublist_filter.
    + intros version. rewrite list_elem_of_fmap. split.
      * intros (v & -> & [[rest Hrest]%strings_HasPrefix_true Hin]%list_elem_of_filter).
        by exists v, rest.
      * intros (v & rest & Hin & Hname & <-). exists v. split; [done|].
        apply list_elem_of_filter. split; [|done].
        apply strings_HasPrefix_true. by exists rest.
Qed.

(** X21. The operator version [getCRDs] builds is listed under its
    operator: once it is among the operator versions of the namespace,
    [OperatorVersionsInstalled] for the name of the operator returns the
    version of the package. *)
Theorem getCRDs_OperatorVersionsInstalled p suffix crds logged p_Operator fv
    namespace items :
  getCRDs p suffix = ((Some crds, None), logged) →
  PackageFiles_Operator p = Some p_Operator →
  PackageCRDs_OperatorVersion crds = Some fv →
  OperatorVersions_List namespace "" = (items, None) →
  fv ∈ items →
  ∃ versions,
    OperatorVersionsInstalled (Operator_Name p_Operator) namespace = (Some versions, None)
    ∧ Operator_Version p_Operator ∈ versions.
Proof.
  intros Hget Hoperator Hfv Hlist Hin.
  assert (ObjectMeta_Name (OperatorVersion_ObjectMeta fv)
          = Operator_Name p_Operator +:+ "-" +:+ Operator_Version p_Operator
          ∧ OperatorVersionSpec_Version (OperatorVersion_Spec fv)
            = Operator_Version p_Operator) as [Hname Hversion].
  { revert Hget. unfold getCRDs. rewrite Hoperator.
    destruct (PackageFiles_Params p) as [params|]; [|done].
    destruct (validateTasks _ _) as [errs logged'].
    destruct (decide (length errs ≠ 0)); [done|].
    intros [= <- _]. simpl in Hfv. by injection Hfv as <-. }
  unfold OperatorVersionsInstalled. rewrite Hlist, foldl_versions. simpl.
  eexists. split; [done|]. apply list_elem_of_fmap. exists fv. split; [done|].
  apply list_elem_of_filter. split; [|done].
  apply strings_HasPrefix_true. rewrite Hname. by eexists.
Qed.

End packages.

(** ** The plan selector *)

Local Instance name_le_trans : Transitive name_le.
Proof. intros a b c. unfold name_le. apply transitivity. Qed.

Local Instance name_le_total : Total name_le.
Proof. intros a b. unfold name_le. apply total, _. Qed.

Lemma plansByName_sorted planStatus :
  StronglySorted name_le (plansByName planStatus).
Proof. apply (StronglySorted_merge_sort name_le). Qed.

Lemma elem_of_plansByName planStatus name plan :
  (name, plan) ∈ plansByName planStatus ↔ planStatus !! name = Some plan.
Proof.
  unfold plansByName. rewrite merge_sort_Permutation.
  apply elem_of_map_to_list.
Qed.

(** No complete plan: the search keeps its candidate. *)
Lemma foldl_laterFinished_none plans last :
  Forall (λ named, PlanStatus_Status named.2 ≠ ExecutionComplete) plans →
  foldl laterFinished last plans = last.
Proof.
  intros Hall. revert last.
  induction Hall as [|named plans Hnamed _ IH]; intros last; simpl; [done|].
  rewrite IH. unfold laterFinished. by rewrite decide_False.
Qed.

Lemma foldl_laterFinished_sorted plans :
  StronglySorted name_le plans →
  match foldl laterFinished None plans with
  | None => Forall (λ named, PlanStatus_Status named.2 ≠ ExecutionComplete) plans
  | Some found => is_last_finished plans found
  end.
Proof.
  induction plans as [|named plans IH] using rev_ind; intros Hsorted.
  { simpl. constructor. }
  apply StronglySorted_app in Hsorted as (Hle & Hsorted & _).
  specialize (IH Hsorted). rewrite foldl_app. simpl.
  unfold laterFinished at 1.
  destruct (decide (PlanStatus_Status named.2 = ExecutionComplete)) as [Hc|Hc].
  - destruct (foldl laterFinished None plans) as [found|].
    + destruct IH as (Hin & Hfound & Hmax).
      destruct (Z.ltb_spec (PlanStatus_LastFinishedRun found.2)
                           (PlanStatus_LastFinishedRun named.2)) as [Hlt|Hge].
      * split; [apply elem_of_app; right; by left|]. split; [done|].
        intros other [Hother|Hother%list_elem_of_singleton]%elem_of_app Hoc.
        -- destruct (Hmax other Hother Hoc) as [Hts _]. split; [lia|lia].
        -- subst other. split; [lia|]. intros _. unfold name_le. reflexivity.
      * split; [apply elem_of_app; by left|]. split; [done|].
        intros other [Hother|Hother%list_elem_of_singleton]%elem_of_app Hoc.
        -- by apply Hmax.
        -- subst other. split; [lia|]. intros _.
           apply Hle; [done|by left].
    + split; [apply elem_of_app; right; by left|]. split; [done|].
      intros other [Hother|Hother%list_elem_of_singleton]%elem_of_app Hoc.
      * rewrite Forall_forall in IH. by destruct (IH other Hother).
      * subst other. split; [lia|]. intros _. unfold name_le. reflexivity.
  - destruct (foldl laterFinished None plans) as [found|].
    + destruct IH as (Hin & Hfound & Hmax).
      split; [apply elem_of_app; by left|]. split; [done|].
      intros other [Hother|Hother%list_elem_of_singleton]%elem_of_app Hoc;
        [by apply Hmax|by subst other].
    + apply Forall_app. split; [done|]. by constructor.
Qed.

Lemma planInProgress_Some i :
  (∃ name plan,
      InstanceStatus_PlanStatus (Instance_Status i) !! name = Some plan
      ∧ PlanStatus_Status plan = ExecutionInProgress) →
  ∃ name plan,
    planInProgress i = Some plan
    ∧ InstanceStatus_PlanStatus (Instance_Status i) !! name = Some plan
    ∧ PlanStatus_Status plan = ExecutionInProgress.
Proof.
  intros (name & plan & Hin%elem_of_plansByName & Hstatus).
  unfold planInProgress.
  destruct (filter _ _) as [|[name' plan'] rest] eqn:Hfilter.
  - assert ((name, plan) ∈ @nil (string * PlanStatus)) as []%elem_of_nil.
    rewrite <- Hfilter. by apply list_elem_of_filter.
  - assert ((name', plan') ∈ filter
              (λ named, PlanStatus_Status named.2 = ExecutionInProgress)
              (plansByName (InstanceStatus_PlanStatus (Instance_Status i))))
      as [Hs Hi]%list_elem_of_filter by (rewrite Hfilter; left).
    exists name', plan'. by apply elem_of_plansByName in Hi.
Qed.

Lemma planInProgress_None i :
  (∀ name plan,
      InstanceStatus_PlanStatus (Instance_Status i) !! name = Some plan →
      PlanStatus_Status plan ≠ ExecutionInProgress) →
  planInProgress i = None.
Proof.
  intros Hnone. unfold planInProgress.
  destruct (filter _ _) as [|[name' plan'] rest] eqn:Hfilter; [done|].
  assert ((name', plan') ∈ filter
            (λ named, PlanStatus_Status named.2 = ExecutionInProgress)
            (plansByName (InstanceStatus_PlanStatus (Instance_Status i))))
    as [Hs Hi%elem_of_plansByName]%list_elem_of_filter by (rewrite Hfilter; left).
  by destruct (Hnone _ _ Hi).
Qed.

(** The selector passes the three cases of [TestGetLastExecutedPlanStatus]. *)
Example TestGetLastExecutedPlanStatus : forallb testPasses tests = true.
Proof. by vm_compute. Qed.

(** C1. Whenever the plan-status map holds a plan whose state is
    in-progress, [GetLastExecutedPlanStatus] returns a plan of the map
    that is in-progress, whatever the last-finished timestamps of the
    complete plans are. *)
Theorem GetLastExecutedPlanStatus_in_progress (i : Instance) :
  (∃ name plan,
      InstanceStatus_PlanStatus (Instance_Status i) !! name = Some plan
      ∧ PlanStatus_Status plan = ExecutionInProgress) →
  ∃ name plan,
    GetLastExecutedPlanStatus i = Some plan
    ∧ InstanceStatus_PlanStatus (Instance_Status i) !! name = Some plan
    ∧ PlanStatus_Status plan = ExecutionInProgress.
Proof.
  intros (name & plan & Hget & Hlookup & Hstatus)%planInProgress_Some.
  exists name, plan. unfold GetLastExecutedPlanStatus. by rewrite Hget.
Qed.

(** C2. When no plan of the map is in-progress and some plan is complete,
    [GetLastExecutedPlanStatus] returns a complete plan of the map that
    no complete plan finished after (the comparison that replaces the
    candidate is a strict greater-than), and among the complete plans
    with that same timestamp it is the one whose name comes first in
    lexical order. *)
Theorem GetLastExecutedPlanStatus_last_finished (i : Instance) :
  map_Forall (λ _ plan, PlanStatus_Status plan ≠ ExecutionInProgress)
             (InstanceStatus_PlanStatus (Instance_Status i)) →
  (∃ name plan,
      InstanceStatus_PlanStatus (Instance_Status i) !! name = Some plan
      ∧ PlanStatus_Status plan = ExecutionComplete) →
  ∃ name plan,
    GetLastExecutedPlanStatus i = Some plan
    ∧ InstanceStatus_PlanStatus (Instance_Status i) !! name = Some plan
    ∧ PlanStatus_Status plan = ExecutionComplete
    ∧ ∀ name' plan',
        InstanceStatus_PlanStatus (Instance_Status i) !! name' = Some plan' →
        PlanStatus_Status plan' = ExecutionComplete →
        (PlanStatus_LastFinishedRun plan' ≤ PlanStatus_LastFinishedRun plan)%Z
        ∧ (PlanStatus_LastFinishedRun plan' = PlanStatus_LastFinishedRun plan →
           String.le name name').
Proof.
  intros Hnone (name0 & plan0 & Hin0%elem_of_plansByName & Hc0).
  unfold GetLastExecutedPlanStatus.
  rewrite planInProgress_None by exact Hnone.
  pose proof (foldl_laterFinished_sorted _
                (plansByName_sorted (InstanceStatus_PlanStatus (Instance_Status i))))
    as Hfold.
  destruct (foldl laterFinished None _) as [[name plan]|].
  - destruct Hfold as (Hin%elem_of_plansByName & Hc & Hmax).
    exists name, plan. repeat split; [done..| |].
    + by apply (Hmax (name', plan')); [apply elem_of_plansByName|].
    + by apply (Hmax (name', plan')); [apply elem_of_plansByName|].
  - rewrite Forall_forall in Hfold. by destruct (Hfold _ Hin0).
Qed.

(** C8. When no plan of the map is in-progress and none is complete (all
    plans never ran, or the map is empty), [GetLastExecutedPlanStatus]
    returns [nil]. *)
Theorem GetLastExecutedPlanStatus_none (i : Instance) :
  map_Forall (λ _ plan, PlanStatus_Status plan ≠ ExecutionInProgress
                        ∧ PlanStatus_Status plan ≠ ExecutionComplete)
             (InstanceStatus_PlanStatus (Instance_Status i)) →
  GetLastExecutedPlanStatus i = None.
Proof.
  intros Hnone. unfold GetLastExecutedPlanStatus.
  rewrite planInProgress_None by (intros name plan Hin; by apply (Hnone _ _ Hin)).
  rewrite foldl_laterFinished_none; [done|].
  apply Forall_forall. intros [name plan] Hin%elem_of_plansByName.
  by apply (Hnone _ _ Hin).
Qed.

(** The empty map. *)
Example GetLastExecutedPlanStatus_empty :
  GetLastExecutedPlanStatus (instanceWithPlanStatus ∅) = None.
Proof. by vm_compute. Qed.

(** ** The theorems at concrete inputs *)

Lemma GetLastExecutedPlanStatus_in_progress_witness :
  (∃ name plan,
      test_planInProgress !! name = Some plan
      ∧ PlanStatus_Status plan = ExecutionInProgress)
  ∧ ∃ name plan,
      GetLastExecutedPlanStatus (instanceWithPlanStatus test_planInProgress) = Some plan
      ∧ test_planInProgress !! name = Some plan
      ∧ PlanStatus_Status plan = ExecutionInProgress.
Proof.
  assert (∃ name plan,
             test_planInProgress !! name = Some plan
             ∧ PlanStatus_Status plan = ExecutionInProgress) as Hplan.
  { exists "test". eexists. split; [apply lookup_insert_eq|done]. }
  split; [exact Hplan|].
  exact (GetLastExecutedPlanStatus_in_progress
           (instanceWithPlanStatus test_planInProgress) Hplan).
Defined.

Lemma GetLastExecutedPlanStatus_last_finished_witness :
  map_Forall (λ _ plan, PlanStatus_Status plan ≠ ExecutionInProgress)
             test_lastExecutedPlan
  ∧ (∃ name plan,
        test_lastExecutedPlan !! name = Some plan
        ∧ PlanStatus_Status plan = ExecutionComplete)
  ∧ ∃ name plan,
      GetLastExecutedPlanStatus (instanceWithPlanStatus test_lastExecutedPlan)
      = Some plan
      ∧ test_lastExecutedPlan !! name = Some plan
      ∧ PlanStatus_Status plan = ExecutionComplete
      ∧ ∀ name' plan',
          test_lastExecutedPlan !! name' = Some plan' →
          PlanStatus_Status plan' = ExecutionComplete →
          (PlanStatus_LastFinishedRun plan' ≤ PlanStatus_LastFinishedRun plan)%Z
          ∧ (PlanStatus_LastFinishedRun plan' = PlanStatus_LastFinishedRun plan →
             String.le name name').
Proof.
  assert (map_Forall (λ _ plan, PlanStatus_Status plan ≠ ExecutionInProgress)
                     test_lastExecutedPlan) as Hnone.
  { apply map_Forall_insert_2; [done|]. by apply map_Forall_singleton. }
  assert (∃ name plan,
             test_lastExecutedPlan !! name = Some plan
             ∧ PlanStatus_Status plan = ExecutionComplete) as Hcomplete.
  { exists "test". eexists. split; [apply lookup_insert_eq|done]. }
  split; [exact Hnone|]. split; [exact Hcomplete|].
  exact (GetLastExecutedPlanStatus_last_finished
           (instanceWithPlanStatus test_lastExecutedPlan) Hnone Hcomplete).
Defined.

Lemma GetLastExecutedPlanStatus_none_witness :
  map_Forall (λ _ plan, PlanStatus_Status plan ≠ ExecutionInProgress
                        ∧ PlanStatus_Status plan ≠ ExecutionComplete)
             test_noPlanEverRun
  ∧ GetLastExecutedPlanStatus (instanceWithPlanStatus test_noPlanEverRun) = None.
Proof.
  assert (map_Forall (λ _ plan, PlanStatus_Status plan ≠ ExecutionInProgress
                                ∧ PlanStatus_Status plan ≠ ExecutionComplete)
                     test_noPlanEverRun) as Hnone.
  { by apply map_Forall_singleton. }
  split; [exact Hnone|].
  exact (GetLastExecutedPlanStatus_none (instanceWithPlanStatus test_noPlanEverRun) Hnone).
Defined.

(** A parameters file with one entry, [replicas], that has an empty
    default and no "required" key; the decoder returns its mapping. *)
Local Abbreviation exampleParams :=
  ({[ "replicas" := {[ "default" := "" ]} ]} : gmap string (gmap string string)).
Local Abbreviation exampleUnmarshalOperator :=
  (λ (_ : string) (operator : option (@Operator unit unit)), (operator, @None error)).
Local Abbreviation exampleUnmarshalParams :=
  (λ _ : string, (exampleParams, @None error)).
Local Abbreviation examplePackage := (@newPackageFiles unit unit).
Local Abbreviation exampleParse :=
  (parsePackageFile exampleUnmarshalOperator exampleUnmarshalParams map_to_list
     "zookeeper/params.yaml" "replicas: {default: ''}" newPackageFiles).

(** The same file with a second entry, [debug], whose "required" value
    is not a boolean. *)
Local Abbreviation exampleParamsMalformed :=
  (<[ "debug" := {[ "required" := "yes" ]} ]> exampleParams
   : gmap string (gmap string string)).
Local Abbreviation exampleUnmarshalParamsMalformed :=
  (λ _ : string, (exampleParamsMalformed, @None error)).
Local Abbreviation exampleParseMalformed :=
  (parsePackageFile exampleUnmarshalOperator exampleUnmarshalParamsMalformed map_to_list
     "zookeeper/params.yaml" "replicas: {default: ''}, debug: {required: yes}"
     newPackageFiles).

Lemma parsePackageFile_required_witness :
  (isOperatorFile "zookeeper/params.yaml" = false
   ∧ isTemplateFile "zookeeper/params.yaml" = false
   ∧ isParametersFile "zookeeper/params.yaml" = true
   ∧ exampleParams !! "replicas" = Some {[ "default" := "" ]}
   ∧ ({[ "default" := "" ]} : gmap string string) !! "required" = None
   ∧ exampleParse =
       (set_Params newPackageFiles
          (Some [ {| Parameter_Name := "replicas";
                     Parameter_Description := "";
                     Parameter_Default := Some "";
                     Parameter_Trigger := "";
                     Parameter_Required := true;
                     Parameter_DisplayName := "" |} ]), None)
   ∧ ∃ paramsStruct,
       exampleParse = (set_Params newPackageFiles (Some paramsStruct), None)
       ∧ (∃ r, r ∈ paramsStruct ∧ Parameter_Name r = "replicas")
       ∧ ∀ r, r ∈ paramsStruct → Parameter_Name r = "replicas" →
              Parameter_Required r = true)
  ∧ (exampleParamsMalformed !! "debug" = Some {[ "required" := "yes" ]}
     ∧ ({[ "required" := "yes" ]} : gmap string string) !! "required" = Some "yes"
     ∧ ("yes" ∉ ["1"; "t"; "T"; "TRUE"; "true"; "True";
                 "0"; "f"; "F"; "FALSE"; "false"; "False"])
     ∧ exampleParseMalformed =
         (newPackageFiles,
          Some (errors_Wrap (strconv_NumError "ParseBool" "yes")
                  ("failed parsing required field from parameter "
                   +:+ "debug" +:+ ". cannot convert " +:+ "yes" +:+ " to bool")))).
Proof.
  assert (exampleParams !! "replicas" = Some {[ "default" := "" ]}) as Hentry
    by apply lookup_singleton_eq.
  assert (({[ "default" := "" ]} : gmap string string) !! "required" = None) as Habsent
    by done.
  assert (∀ name p w, exampleParams !! name = Some p → p !! "required" = Some w →
                      w ∈ ["1"; "t"; "T"; "TRUE"; "true"; "True";
                           "0"; "f"; "F"; "FALSE"; "false"; "False"]) as Hall.
  { intros name p w [_ <-]%lookup_singleton_Some Hw. done. }
  assert (exampleParamsMalformed !! "debug" = Some {[ "required" := "yes" ]}) as Hentry'
    by apply lookup_insert_eq.
  assert (({[ "required" := "yes" ]} : gmap string string) !! "required" = Some "yes")
    as Hyes by apply lookup_singleton_eq.
  assert ("yes" ∉ ["1"; "t"; "T"; "TRUE"; "true"; "True";
                   "0"; "f"; "F"; "FALSE"; "false"; "False"]) as Hmalformed.
  { intros Hin. repeat (apply elem_of_cons in Hin as [Hin|Hin]; [done|]).
    by apply elem_of_nil in Hin. }
  assert (∀ name p w, exampleParamsMalformed !! name = Some p →
                      p !! "required" = Some w →
                      w ∉ ["1"; "t"; "T"; "TRUE"; "true"; "True";
                           "0"; "f"; "F"; "FALSE"; "false"; "False"] →
                      name = "debug") as Honly.
  { intros name p w Hp Hw _.
    apply lookup_insert_Some in Hp as [[<- _]|[_ [_ <-]%lookup_singleton_Some]];
      done. }
  split.
  - repeat (split; [first [exact Hentry | exact Habsent | by vm_compute]|]).
    exact (proj2 (proj2
             (proj1 (parsePackageFile_required exampleUnmarshalOperator
                       exampleUnmarshalParams map_to_list (λ _, reflexivity _)
                       "zookeeper/params.yaml" "replicas: {default: ''}" newPackageFiles
                       exampleParams "replicas" {[ "default" := "" ]}
                       eq_refl eq_refl eq_refl eq_refl Hentry)
                Habsent)) Hall).
  - split; [exact Hentry'|]. split; [exact Hyes|]. split; [exact Hmalformed|].
    exact (proj2
             (proj1 (proj2
                (parsePackageFile_required exampleUnmarshalOperator
                   exampleUnmarshalParamsMalformed map_to_list (λ _, reflexivity _)
                   "zookeeper/params.yaml"
                   "replicas: {default: ''}, debug: {required: yes}" newPackageFiles
                   exampleParamsMalformed "debug" {[ "required" := "yes" ]}
                   eq_refl eq_refl eq_refl eq_refl Hentry'))
                "yes" Hyes Hmalformed) Honly).
Defined.

Lemma parsePackageFile_default_witness :
  isOperatorFile "zookeeper/params.yaml" = false
  ∧ isTemplateFile "zookeeper/params.yaml" = false
  ∧ isParametersFile "zookeeper/params.yaml" = true
  ∧ exampleParams !! "replicas" = Some {[ "default" := "" ]}
  ∧ exampleParse =
      (set_Params newPackageFiles
         (Some [ {| Parameter_Name := "replicas";
                    Parameter_Description := "";
                    Parameter_Default := Some "";
                    Parameter_Trigger := "";
                    Parameter_Required := true;
                    Parameter_DisplayName := "" |} ]), None)
  ∧ ∃ paramsStruct,
      PackageFiles_Params
        (set_Params (@newPackageFiles unit unit)
           (Some [ {| Parameter_Name := "replicas";
                      Parameter_Description := "";
                      Parameter_Default := Some "";
                      Parameter_Trigger := "";
                      Parameter_Required := true;
                      Parameter_DisplayName := "" |} ]))
      = Some paramsStruct
      ∧ (∃ r, r ∈ paramsStruct ∧ Parameter_Name r = "replicas")
      ∧ ∀ r, r ∈ paramsStruct → Parameter_Name r = "replicas" →
             (is_Some (Parameter_Default r)
              ↔ is_Some (({[ "default" := "" ]} : gmap string string) !! "default"))
             ∧ (({[ "default" := "" ]} : gmap string string) !! "default" = Some "" →
                Parameter_Default r = Some "")
             ∧ (({[ "default" := "" ]} : gmap string string) !! "default" = None →
                Parameter_Default r = None)
             ∧ Parameter_Default r
               = ({[ "default" := "" ]} : gmap string string) !! "default".
Proof.
  assert (exampleParams !! "replicas" = Some {[ "default" := "" ]}) as Hentry
    by apply lookup_singleton_eq.
  assert (exampleParse =
            (set_Params newPackageFiles
               (Some [ {| Parameter_Name := "replicas";
                          Parameter_Description := "";
                          Parameter_Default := Some "";
                          Parameter_Trigger := "";
                          Parameter_Required := true;
                          Parameter_DisplayName := "" |} ]), None)) as Hparse
    by (by vm_compute).
  repeat (split; [first [exact Hentry | exact Hparse | by vm_compute]|]).
  exact (parsePackageFile_default exampleUnmarshalOperator exampleUnmarshalParams
           map_to_list (λ _, reflexivity _)
           "zookeeper/params.yaml" "replicas: {default: ''}" newPackageFiles
           exampleParams "replicas" {[ "default" := "" ]} _
           eq_refl eq_refl eq_refl eq_refl Hentry Hparse).
Defined.

(** Three archives of which the second cannot be read; its loader still
    returns a digest next to the error. *)
Local Abbreviation exampleLoad :=
  (λ (_ : unit) (path : string),
     if bool_decide (path = "broken.tgz")
     then (Some {| PackageFilesDigest_PkgFiles := @None (@PackageFiles unit unit);
                   PackageFilesDigest_Digest := "e3b0c442" |},
           Some (errors_New "unexpected EOF"))
     else (Some {| PackageFilesDigest_PkgFiles := Some newPackageFiles;
                   PackageFilesDigest_Digest := path |},
           @None error)).

Lemma mapPaths_one_failure_witness :
  Forall (λ path, (exampleLoad () path).2 = None) ["zookeeper.tgz"]
  ∧ (exampleLoad () "broken.tgz").2 ≠ None
  ∧ Forall (λ path, (exampleLoad () path).2 = None) ["kafka.tgz"]
  ∧ mapPaths () (["zookeeper.tgz"] ++ "broken.tgz" :: ["kafka.tgz"]) exampleLoad =
      ((λ path, (exampleLoad () path).1) <$> (["zookeeper.tgz"] ++ ["kafka.tgz"]),
       ["WARNING: operator: " +:+ "broken.tgz" +:+ " is invalid"])
  ∧ length (mapPaths () (["zookeeper.tgz"] ++ "broken.tgz" :: ["kafka.tgz"])
              exampleLoad).1
    = length (["zookeeper.tgz"] ++ "broken.tgz" :: ["kafka.tgz"]) - 1.
Proof.
  assert (Forall (λ path, (exampleLoad () path).2 = None) ["zookeeper.tgz"]) as Hbefore
    by (by repeat constructor).
  assert ((exampleLoad () "broken.tgz").2 ≠ None) as Hfailed by done.
  assert (Forall (λ path, (exampleLoad () path).2 = None) ["kafka.tgz"]) as Hafter
    by (by repeat constructor).
  split; [exact Hbefore|]. split; [exact Hfailed|]. split; [exact Hafter|].
  exact (mapPaths_one_failure () exampleLoad ["zookeeper.tgz"] "broken.tgz" ["kafka.tgz"]
           Hbefore Hfailed Hafter).
Defined.

(** A template below a directory that is itself called [templates]: the
    key starts after the last marker. *)
Lemma parsePackageFile_template_stored_witness :
  isOperatorFile "zookeeper/templates/old/templates/pdb.yaml" = false
  ∧ isTemplateFile "zookeeper/templates/old/templates/pdb.yaml" = true
  ∧ parsePackageFile exampleUnmarshalOperator exampleUnmarshalParams map_to_list
      "zookeeper/templates/old/templates/pdb.yaml" "kind: PodDisruptionBudget"
      examplePackage
    = (set_Templates examplePackage {[ "pdb.yaml" := "kind: PodDisruptionBudget" ]},
       None)
  ∧ ∃ pre key,
      "zookeeper/templates/old/templates/pdb.yaml" = pre +:+ "templates/" +:+ key
      ∧ last_occurrence_at "templates/" "zookeeper/templates/old/templates/pdb.yaml"
          (String.length pre)
      ∧ parsePackageFile exampleUnmarshalOperator exampleUnmarshalParams map_to_list
          "zookeeper/templates/old/templates/pdb.yaml" "kind: PodDisruptionBudget"
          examplePackage
        = (set_Templates examplePackage
             (<[key := "kind: PodDisruptionBudget"]>
                (PackageFiles_Templates examplePackage)), None)
      ∧ PackageFiles_Templates
          (parsePackageFile exampleUnmarshalOperator exampleUnmarshalParams map_to_list
             "zookeeper/templates/old/templates/pdb.yaml" "kind: PodDisruptionBudget"
             examplePackage).1 !! key
        = Some "kind: PodDisruptionBudget"
      ∧ ∀ laterPath laterBytes pre',
          isOperatorFile laterPath = false →
          isTemplateFile laterPath = true →
          laterPath = pre' +:+ "templates/" +:+ key →
          last_occurrence_at "templates/" laterPath (String.length pre') →
          parsePackageFile exampleUnmarshalOperator exampleUnmarshalParams map_to_list
            laterPath laterBytes
            (parsePackageFile exampleUnmarshalOperator exampleUnmarshalParams map_to_list
               "zookeeper/templates/old/templates/pdb.yaml" "kind: PodDisruptionBudget"
               examplePackage).1
          = (set_Templates examplePackage
               (<[key := laterBytes]> (PackageFiles_Templates examplePackage)), None).
Proof.
  split; [by vm_compute|]. split; [by vm_compute|]. split; [by vm_compute|].
  exact (proj1 (parsePackageFile_template_stored
                  exampleUnmarshalOperator exampleUnmarshalParams map_to_list
                  "kind: PodDisruptionBudget" examplePackage)
           "zookeeper/templates/old/templates/pdb.yaml" eq_refl eq_refl).
Defined.

(** An operator with two tasks, each of which refers to a template the
    package does not have. *)
Local Abbreviation exampleTask name kind resource :=
  {| Task_Name := name; Task_Kind := kind;
     Task_Spec :=
       {| TaskSpec_ResourceTaskSpec :=
            {| ResourceTaskSpec_Resources := [resource] |} |} |}.
Local Abbreviation exampleOperator tasks :=
  (@Build_Operator unit unit "zookeeper" "" "0.1.0" "3.4.10" "0.8.0" "1.15" [] ""
     tasks ∅).
Local Abbreviation exampleTasks :=
  [ exampleTask "deploy" "Apply" "service.yaml";
    exampleTask "cleanup" "Delete" "job.yaml" ].
Local Abbreviation exampleTemplates :=
  ({[ "deployment.yaml" := "kind: Deployment" ]} : gmap string string).
Local Abbreviation exampleGetCRDs :=
  (getCRDs "Apply" "Delete" "Dummy" "kudo.dev/operator").

Lemma getCRDs_missing_templates_witness :
  exampleTemplates !! "service.yaml" = None
  ∧ exampleTemplates !! "job.yaml" = None
  ∧ (exampleGetCRDs
       {| PackageFiles_Templates := exampleTemplates;
          PackageFiles_Operator := Some (exampleOperator exampleTasks);
          PackageFiles_Params := Some [] |} "x7k2pq").1
    = (None,
       Some (errors_New
               ("task " +:+ "deploy" +:+ " missing template: " +:+ "service.yaml"
                +:+ String newline ""
                +:+ "task " +:+ "cleanup" +:+ " missing template: " +:+ "job.yaml"))).
Proof.
  split; [done|]. split; [done|].
  exact (proj2 (proj2 (proj2
           (getCRDs_missing_templates "Apply" "Delete" "Dummy" "kudo.dev/operator"
              exampleTemplates (exampleOperator exampleTasks) [] "x7k2pq")))
           (exampleTask "deploy" "Apply" "service.yaml")
           (exampleTask "cleanup" "Delete" "job.yaml")
           "service.yaml" "job.yaml"
           eq_refl (or_introl eq_refl) (or_intror eq_refl) eq_refl eq_refl
           eq_refl eq_refl).
Defined.

(** A package with an operator without tasks and an empty parameter
    list compiles. *)
Lemma getCRDs_preconditions_witness :
  (validateTasks "Apply" "Delete" "Dummy" [] exampleTemplates).1 = []
  ∧ ∃ crds,
      (exampleGetCRDs
         {| PackageFiles_Templates := exampleTemplates;
            PackageFiles_Operator := Some (exampleOperator []);
            PackageFiles_Params := Some [] |} "x7k2pq").1 = (Some crds, None).
Proof.
  split; [done|].
  exact (proj2 (proj2
           (proj2 (proj2 (proj2
              (getCRDs_preconditions "Apply" "Delete" "Dummy" "kudo.dev/operator"
                 {| PackageFiles_Templates := exampleTemplates;
                    PackageFiles_Operator := Some (exampleOperator []);
                    PackageFiles_Params := Some [] |} "x7k2pq")))
              (exampleOperator []) eq_refl eq_refl))
           eq_refl).
Defined.

(** The operator with the two broken tasks, but without a parameter list:
    the missing-parameters error, and no task was looked at. *)
Lemma getCRDs_completeness_first_witness :
  (validateTasks "Apply" "Delete" "Dummy" exampleTasks exampleTemplates).1 ≠ []
  ∧ exampleGetCRDs
      {| PackageFiles_Templates := exampleTemplates;
         PackageFiles_Operator := Some (exampleOperator exampleTasks);
         PackageFiles_Params := None |} "x7k2pq"
    = ((None, Some (errors_New "params.yaml file is missing")), []).
Proof.
  split; [done|].
  exact (proj1 (proj2
           (getCRDs_completeness_first "Apply" "Delete" "Dummy" "kudo.dev/operator"
              {| PackageFiles_Templates := exampleTemplates;
                 PackageFiles_Operator := Some (exampleOperator exampleTasks);
                 PackageFiles_Params := None |} "x7k2pq"))
           (ex_intro _ (exampleOperator exampleTasks) eq_refl) eq_refl).
Defined.

(** ** The further properties at concrete inputs *)

(** A package that already holds [svc.yaml] keeps it when another template
    is parsed. *)
Local Abbreviation examplePackageWithTemplate :=
  (set_Templates examplePackage {[ "svc.yaml" := "kind: Service" ]}).

Lemma parsePackageFile_keeps_templates_witness :
  PackageFiles_Templates examplePackageWithTemplate !! "svc.yaml" = Some "kind: Service"
  ∧ (PackageFiles_Templates
       (parsePackageFile exampleUnmarshalOperator exampleUnmarshalParams map_to_list
          "zookeeper/templates/pdb.yaml" "kind: PodDisruptionBudget"
          examplePackageWithTemplate).1 !! "svc.yaml"
     = Some "kind: Service"
     ∨ (isOperatorFile "zookeeper/templates/pdb.yaml" = false
        ∧ isTemplateFile "zookeeper/templates/pdb.yaml" = true
        ∧ default "" (last (strings_Split "zookeeper/templates/pdb.yaml" "templates/"))
          = "svc.yaml"
        ∧ PackageFiles_Templates
            (parsePackageFile exampleUnmarshalOperator exampleUnmarshalParams map_to_list
               "zookeeper/templates/pdb.yaml" "kind: PodDisruptionBudget"
               examplePackageWithTemplate).1 !! "svc.yaml"
          = Some "kind: PodDisruptionBudget")).
Proof.
  assert (PackageFiles_Templates examplePackageWithTemplate !! "svc.yaml"
          = Some "kind: Service") as Hold by apply lookup_singleton_eq.
  split; [exact Hold|].
  exact (parsePackageFile_keeps_templates exampleUnmarshalOperator
           exampleUnmarshalParams map_to_list
           "zookeeper/templates/pdb.yaml" "kind: PodDisruptionBudget"
           examplePackageWithTemplate "svc.yaml" "kind: Service" Hold).
Defined.

(** A parameters file with two entries, one of them optional. *)
Local Abbreviation exampleParams2 :=
  (<[ "replicas" := {[ "default" := "3" ]} ]>
     {[ "debug" := <[ "required" := "false" ]> {[ "description" := "verbose logs" ]} ]}
   : gmap string (gmap string string)).
Local Abbreviation exampleUnmarshalParams2 :=
  (λ _ : string, (exampleParams2, @None error)).
Local Abbreviation exampleParse2 :=
  (parsePackageFile exampleUnmarshalOperator exampleUnmarshalParams2 map_to_list
     "zookeeper/params.yaml" "replicas: {default: 3}" examplePackage).
Local Abbreviation exampleResult2 :=
  (set_Params examplePackage
     (Some [ {| Parameter_Name := "replicas";
                Parameter_Description := "";
                Parameter_Default := Some "3";
                Parameter_Trigger := "";
                Parameter_Required := true;
                Parameter_DisplayName := "" |};
             {| Parameter_Name := "debug";
                Parameter_Description := "verbose logs";
                Parameter_Default := None;
                Parameter_Trigger := "";
                Parameter_Required := false;
                Parameter_DisplayName := "" |} ])).

Lemma parsePackageFile_parameter_names_witness :
  isOperatorFile "zookeeper/params.yaml" = false
  ∧ isTemplateFile "zookeeper/params.yaml" = false
  ∧ isParametersFile "zookeeper/params.yaml" = true
  ∧ exampleParse2 = (exampleResult2, None)
  ∧ ∃ paramsStruct,
      PackageFiles_Params exampleResult2 = Some paramsStruct
      ∧ Parameter_Name <$> paramsStruct ≡ₚ (map_to_list exampleParams2).*1
      ∧ NoDup (Parameter_Name <$> paramsStruct)
      ∧ length paramsStruct = size exampleParams2.
Proof.
  assert (exampleParse2 = (exampleResult2, None)) as Hparse by (by vm_compute).
  repeat (split; [first [exact Hparse | by vm_compute]|]).
  exact (parsePackageFile_parameter_names exampleUnmarshalOperator
           exampleUnmarshalParams2 map_to_list (λ _, reflexivity _)
           "zookeeper/params.yaml" "replicas: {default: 3}" examplePackage
           exampleParams2 exampleResult2 eq_refl eq_refl eq_refl eq_refl Hparse).
Defined.

Lemma parsePackageFile_parameter_fields_witness :
  exampleParams2 !! "debug"
  = Some (<[ "required" := "false" ]> {[ "description" := "verbose logs" ]})
  ∧ exampleParse2 = (exampleResult2, None)
  ∧ ∃ paramsStruct r,
      PackageFiles_Params exampleResult2 = Some paramsStruct
      ∧ r ∈ paramsStruct
      ∧ Parameter_Name r = "debug"
      ∧ Parameter_Description r
        = default "" ((<[ "required" := "false" ]> {[ "description" := "verbose logs" ]}
                       : gmap string string) !! "description")
      ∧ Parameter_Trigger r
        = default "" ((<[ "required" := "false" ]> {[ "description" := "verbose logs" ]}
                       : gmap string string) !! "trigger")
      ∧ Parameter_DisplayName r
        = default "" ((<[ "required" := "false" ]> {[ "description" := "verbose logs" ]}
                       : gmap string string) !! "displayName")
      ∧ (∀ v, (<[ "required" := "false" ]> {[ "description" := "verbose logs" ]}
               : gmap string string) !! "required" = Some v →
              (v ∈ ["1"; "t"; "T"; "TRUE"; "true"; "True"] → Parameter_Required r = true)
              ∧ (v ∈ ["0"; "f"; "F"; "FALSE"; "false"; "False"] →
                 Parameter_Required r = false)).
Proof.
  assert (exampleParams2 !! "debug"
          = Some (<[ "required" := "false" ]> {[ "description" := "verbose logs" ]}))
    as Hentry by (by vm_compute).
  assert (exampleParse2 = (exampleResult2, None)) as Hparse by (by vm_compute).
  split; [exact Hentry|]. split; [exact Hparse|].
  exact (parsePackageFile_parameter_fields exampleUnmarshalOperator
           exampleUnmarshalParams2 map_to_list (λ _, reflexivity _)
           "zookeeper/params.yaml" "replicas: {default: 3}" examplePackage
           exampleParams2 "debug" _ exampleResult2
           eq_refl eq_refl eq_refl eq_refl Hentry Hparse).
Defined.

(** An empty parameters file. *)
Local Abbreviation exampleUnmarshalNoParams :=
  (λ _ : string, (∅ : gmap string (gmap string string), @None error)).


(** A task of a kind the validator does not know. *)
Lemma validateTask_other_kinds_witness :
  Task_Kind (exampleTask "backup" "Pipe" "job.yaml") ≠ "Apply"
  ∧ Task_Kind (exampleTask "backup" "Pipe" "job.yaml") ≠ "Delete"
  ∧ (validateTask "Apply" "Delete" "Dummy"
       (exampleTask "backup" "Pipe" "job.yaml") exampleTemplates).1 = []
  ∧ (Task_Kind (exampleTask "backup" "Pipe" "job.yaml") = "Dummy" →
     (validateTask "Apply" "Delete" "Dummy"
        (exampleTask "backup" "Pipe" "job.yaml") exampleTemplates).2 = [])
  ∧ (Task_Kind (exampleTask "backup" "Pipe" "job.yaml") ≠ "Dummy" →
     (validateTask "Apply" "Delete" "Dummy"
        (exampleTask "backup" "Pipe" "job.yaml") exampleTemplates).2
     = ["no validation for task kind "
        +:+ Task_Kind (exampleTask "backup" "Pipe" "job.yaml") +:+ " implemented"]).
Proof.
  assert (Task_Kind (exampleTask "backup" "Pipe" "job.yaml") ≠ "Apply") as Happly
    by done.
  assert (Task_Kind (exampleTask "backup" "Pipe" "job.yaml") ≠ "Delete") as Hdelete
    by done.
  split; [exact Happly|]. split; [exact Hdelete|].
  exact (validateTask_other_kinds "Apply" "Delete" "Dummy"
           (exampleTask "backup" "Pipe" "job.yaml") exampleTemplates Happly Hdelete).
Defined.

(** Adding [service.yaml] to the templates. *)
Lemma validateTask_more_templates_witness :
  (∀ res, is_Some (exampleTemplates !! res) →
          is_Some ((<[ "service.yaml" := "kind: Service" ]> exampleTemplates) !! res))
  ∧ (validateTask "Apply" "Delete" "Dummy"
       (exampleTask "deploy" "Apply" "service.yaml")
       (<[ "service.yaml" := "kind: Service" ]> exampleTemplates)).1
    `sublist_of`
    (validateTask "Apply" "Delete" "Dummy"
       (exampleTask "deploy" "Apply" "service.yaml") exampleTemplates).1.
Proof.
  assert (∀ res, is_Some (exampleTemplates !! res) →
                 is_Some ((<[ "service.yaml" := "kind: Service" ]> exampleTemplates)
                          !! res)) as Hmore.
  { intros res [content Hres]. rewrite lookup_insert.
    case_decide; [by eexists|]. by exists content. }
  split; [exact Hmore|].
  exact (validateTask_more_templates "Apply" "Delete" "Dummy"
           (exampleTask "deploy" "Apply" "service.yaml") exampleTemplates
           (<[ "service.yaml" := "kind: Service" ]> exampleTemplates) Hmore).
Defined.

(** A package whose only task refers to the one template it holds. *)
Local Abbreviation examplePackageValid :=
  {| PackageFiles_Templates := exampleTemplates;
     PackageFiles_Operator :=
       Some (exampleOperator [exampleTask "deploy" "Apply" "deployment.yaml"]);
     PackageFiles_Params := Some [] |}.

Lemma getCRDs_references_witness :
  ∃ crds logged,
    exampleGetCRDs examplePackageValid "x7k2pq" = ((Some crds, None), logged)
    ∧ ∃ p_Operator operator fv instance,
        PackageFiles_Operator examplePackageValid = Some p_Operator
        ∧ PackageCRDs_Operator crds = Some operator
        ∧ PackageCRDs_OperatorVersion crds = Some fv
        ∧ PackageCRDs_Instance crds = Some instance
        ∧ ObjectMeta_Name (v1alpha1_Operator_ObjectMeta operator)
          = Operator_Name p_Operator
        ∧ ObjectReference_Name (OperatorVersionSpec_Operator (OperatorVersion_Spec fv))
          = ObjectMeta_Name (v1alpha1_Operator_ObjectMeta operator)
        ∧ ObjectReference_Name (InstanceSpec_OperatorVersion (Instance_Spec instance))
          = ObjectMeta_Name (OperatorVersion_ObjectMeta fv)
        ∧ ObjectMeta_Labels (Instance_ObjectMeta instance) !! "kudo.dev/operator"
          = Some (ObjectMeta_Name (v1alpha1_Operator_ObjectMeta operator))
        ∧ OperatorVersionSpec_Templates (OperatorVersion_Spec fv)
          = PackageFiles_Templates examplePackageValid
        ∧ OperatorVersionSpec_Tasks (OperatorVersion_Spec fv) = Operator_Tasks p_Operator
        ∧ OperatorVersionSpec_Parameters (OperatorVersion_Spec fv)
          = PackageFiles_Params examplePackageValid
        ∧ OperatorVersionSpec_Plans (OperatorVersion_Spec fv) = Operator_Plans p_Operator
        ∧ InstanceStatus_PlanStatus (Instance_Status instance) = ∅.
Proof.
  eexists _, _. split; [reflexivity|].
  exact (getCRDs_references "Apply" "Delete" "Dummy" "kudo.dev/operator"
           examplePackageValid "x7k2pq" _ _ eq_refl).
Defined.

(** The template [zookeeper/templates/foo.yaml] is the one the task
    [deploy] refers to. *)
Lemma parsePackageFile_template_resolves_witness :
  isOperatorFile "zookeeper/templates/foo.yaml" = false
  ∧ isTemplateFile "zookeeper/templates/foo.yaml" = true
  ∧ last_occurrence_at "templates/" "zookeeper/templates/foo.yaml"
      (String.length "zookeeper/")
  ∧ (∀ res,
       res ∈ ResourceTaskSpec_Resources
               (TaskSpec_ResourceTaskSpec
                  (Task_Spec (exampleTask "deploy" "Apply" "foo.yaml"))) →
       res = "foo.yaml" ∨ is_Some (PackageFiles_Templates examplePackage !! res))
  ∧ (validateTask "Apply" "Delete" "Dummy" (exampleTask "deploy" "Apply" "foo.yaml")
       (PackageFiles_Templates
          (parsePackageFile exampleUnmarshalOperator exampleUnmarshalParams map_to_list
             "zookeeper/templates/foo.yaml" "kind: Deployment" examplePackage).1)).1
    = [].
Proof.
  assert (last_occurrence_at "templates/" "zookeeper/templates/foo.yaml"
            (String.length "zookeeper/")) as Hlast.
  { split; [by exists "zookeeper/", "foo.yaml"|].
    intros n Hn.
    destruct (templates_occurs_after "zookeeper/" "foo.yaml" n Hn)
      as [|(j & _ & a & b & Heq & _)]; [done|].
    exfalso. do 9 (destruct a as [|? a]; [cbv in Heq; simplify_eq|]).
    cbv in Heq. simplify_eq. }
  assert (∀ res,
            res ∈ ResourceTaskSpec_Resources
                    (TaskSpec_ResourceTaskSpec
                       (Task_Spec (exampleTask "deploy" "Apply" "foo.yaml"))) →
            res = "foo.yaml" ∨ is_Some (PackageFiles_Templates examplePackage !! res))
    as Hrefs.
  { intros res Hres. left. by apply list_elem_of_singleton in Hres. }
  split; [by vm_compute|]. split; [by vm_compute|].
  split; [exact Hlast|]. split; [exact Hrefs|].
  exact (parsePackageFile_template_resolves "Apply" "Delete" "Dummy"
           exampleUnmarshalOperator exampleUnmarshalParams map_to_list
           "zookeeper/templates/foo.yaml" "kind: Deployment" examplePackage
           "zookeeper/" "foo.yaml" (exampleTask "deploy" "Apply" "foo.yaml")
           eq_refl eq_refl eq_refl Hlast Hrefs).
Defined.

(** The cluster lists the instance that [getCRDs] built, selected by the
    operator label. *)
Lemma getCRDs_InstanceExistsInCluster_witness :
  ∃ crds logged instance,
    exampleGetCRDs examplePackageValid "x7k2pq" = ((Some crds, None), logged)
    ∧ PackageCRDs_Instance crds = Some instance
    ∧ ObjectMeta_Labels (Instance_ObjectMeta instance) !! "kudo.dev/operator"
      = Some "zookeeper"
    ∧ InstanceExistsInCluster "kudo.dev/operator"
        (λ _ selector,
           if bool_decide (selector = "kudo.dev/operator=zookeeper")
           then ([instance], None) else ([], None))
        "zookeeper" "default" "0.1.0" ("zookeeper" +:+ "-" +:+ "x7k2pq")
      = (true, None).
Proof.
  eexists _, _, _. split; [reflexivity|]. split; [reflexivity|].
  refine (getCRDs_InstanceExistsInCluster "Apply" "Delete" "Dummy"
            "kudo.dev/operator" _ examplePackageValid "x7k2pq" _ _
            (exampleOperator [exampleTask "deploy" "Apply" "deployment.yaml"])
            _ "default" _ eq_refl eq_refl eq_refl eq_refl _).
  by apply list_elem_of_singleton.
Defined.

(** The cluster lists the operator version that [getCRDs] built. *)
Lemma getCRDs_OperatorVersionsInstalled_witness :
  ∃ crds logged fv,
    exampleGetCRDs examplePackageValid "x7k2pq" = ((Some crds, None), logged)
    ∧ PackageCRDs_OperatorVersion crds = Some fv
    ∧ ∃ versions,
        OperatorVersionsInstalled (λ _ _, ([fv], None)) "zookeeper" "default"
        = (Some versions, None)
        ∧ "0.1.0" ∈ versions.
Proof.
  eexists _, _, _. split; [reflexivity|]. split; [reflexivity|].
  refine (getCRDs_OperatorVersionsInstalled "Apply" "Delete" "Dummy"
            "kudo.dev/operator" _ examplePackageValid "x7k2pq" _ _
            (exampleOperator [exampleTask "deploy" "Apply" "deployment.yaml"])
            _ "default" _ eq_refl eq_refl eq_refl eq_refl _).
  by apply list_elem_of_singleton.
Defined.
